(** * Session scheduling and rating engine of the badminton scheduler

    A shallow embedding of [server/src/index.ts]: the Prisma tables the
    handlers read and write, the scheduler [generateUpcomingMatches], and the
    handlers behind [queue/join], [generate], [match/start] and
    [match/finish].

    Conventions of the embedding.
    - A table is the list of its rows in insertion order.  Only the columns
      the handlers read or write are kept (e-mail, password hash, rank and
      the [createdAt]/[updatedAt] stamps are left out).
    - A JavaScript number that holds a rating is an exact rational ([Q]):
      what the handlers store is computed with [+ - * /] only, so the
      embedding is the exact arithmetic the doubles approximate.  The
      doubles round: an equation between ratings is an equation of this
      exact arithmetic, and the ratings of the worked examples are whole
      numbers that binary64 computes without rounding.  Integer columns
      are [Z].
    - What the JavaScript runtime and the Prisma client supply from outside
      the repository is the record [Runtime]: [Math.pow], the successive
      values of [Math.random()], the clock and the keys given to new rows
      (the client draws them; they are taken as they come).
    - A handler is a function from the store and its request to the new
      store and a [Reply]. *)

From Stdlib Require Import String Bool Arith Lia ZArith QArith.
From Stdlib Require Import List Permutation Sorted.
Import ListNotations.

Local Close Scope Q_scope.
Local Open Scope string_scope.
Local Open Scope list_scope.
Local Open Scope nat_scope.

(** ** Data model (the tables of the migration) *)

Inductive MatchStatus : Set := SCHEDULED | ONGOING | FINISHED.

Record User := mkUser {
  userId : string;
  rating : Q
}.

Record Session := mkSession {
  sessionId : string;
  courts : Z;
  isActive : bool
}.

Record Match := mkMatch {
  matchId : string;
  m_sessionId : string;
  court : Z;
  status : MatchStatus;
  startedAt : option Z;
  endedAt : option Z;
  p1Id : string;
  p2Id : string;
  p3Id : string;
  p4Id : string;
  winnerTeam : option Z
}.

Record WaitingQueueEntry := mkEntry {
  q_sessionId : string;
  q_userId : string;
  position : Z;
  joinedAt : Z
}.

Record RatingHistory := mkHistory {
  h_userId : string;
  change : Q;
  h_rating : Q;
  h_matchId : string
}.

Record Db := mkDb {
  users : list User;
  sessions : list Session;
  matches : list Match;
  waitingQueue : list WaitingQueueEntry;
  ratingHistory : list RatingHistory
}.

(** What a call gets from outside the repository. *)
Record Runtime := mkRuntime {
  Math_pow : Q -> Q -> Q;     (* Math.pow *)
  Math_random : nat -> Q;     (* the k-th value Math.random() returns in this call *)
  Date_now : Z;               (* new Date() and CURRENT_TIMESTAMP *)
  freshId : nat -> string        (* the key of the k-th Match row created in this call *)
}.

(** What an Express handler does with its response.  [Rejected]: a Prisma
    call threw inside the async handler and nothing caught it, so no
    response is written. *)
Inductive Reply (A : Type) : Type :=
| Json (body : A)
| Status (code : Z) (error : string)
| Rejected (reason : string).
Arguments Json {A} body.
Arguments Status {A} code error.
Arguments Rejected {A} reason.

(** The result of the async function [generateUpcomingMatches]. *)
Inductive Outcome (A : Type) : Type :=
| Returned (value : A)
| Threw (message : string).
Arguments Returned {A} value.
Arguments Threw {A} message.

(** ** Column setters *)

Definition set_users (us : list User) (db : Db) : Db :=
  mkDb us (sessions db) (matches db) (waitingQueue db) (ratingHistory db).
Definition set_matches (ms : list Match) (db : Db) : Db :=
  mkDb (users db) (sessions db) ms (waitingQueue db) (ratingHistory db).
Definition set_waitingQueue (q : list WaitingQueueEntry) (db : Db) : Db :=
  mkDb (users db) (sessions db) (matches db) q (ratingHistory db).
Definition set_ratingHistory (h : list RatingHistory) (db : Db) : Db :=
  mkDb (users db) (sessions db) (matches db) (waitingQueue db) h.

Definition with_rating (r : Q) (u : User) : User := mkUser (userId u) r.

Definition with_started (t : Z) (m : Match) : Match :=
  mkMatch (matchId m) (m_sessionId m) (court m) ONGOING (Some t) (endedAt m)
          (p1Id m) (p2Id m) (p3Id m) (p4Id m) (winnerTeam m).

Definition with_finished (w t : Z) (m : Match) : Match :=
  mkMatch (matchId m) (m_sessionId m) (court m) FINISHED (startedAt m) (Some t)
          (p1Id m) (p2Id m) (p3Id m) (p4Id m) (Some w).

(** ** Queries *)

(** [status: { in: [SCHEDULED, ONGOING] }] *)
Definition isLive (s : MatchStatus) : bool :=
  match s with
  | SCHEDULED | ONGOING => true
  | FINISHED => false
  end.

Definition findSession (db : Db) (id : string) : option Session :=
  find (fun s => String.eqb (sessionId s) id) (sessions db).

Definition findUser (db : Db) (id : string) : option User :=
  find (fun u => String.eqb (userId u) id) (users db).

Definition findMatch (db : Db) (id : string) : option Match :=
  find (fun m => String.eqb (matchId m) id) (matches db).

(** [update({ where: { id } , data })] on a table: the row with that key is
    rewritten (keys are unique, so it is the first one with the key). *)
Fixpoint updateFirst {A : Type} (p : A -> bool) (f : A -> A) (l : list A) : list A :=
  match l with
  | [] => []
  | x :: t => if p x then f x :: t else x :: updateFirst p f t
  end.

Definition updateUser (id : string) (r : Q) (db : Db) : Db :=
  set_users (updateFirst (fun u => String.eqb (userId u) id) (with_rating r) (users db)) db.

Definition updateMatch (id : string) (f : Match -> Match) (db : Db) : Db :=
  set_matches (updateFirst (fun m => String.eqb (matchId m) id) f (matches db)) db.

(** The SCHEDULED and ONGOING matches of a session. *)
Definition liveMatches (db : Db) (sid : string) : list Match :=
  filter (fun m => String.eqb (m_sessionId m) sid && isLive (status m)) (matches db).

(** ** Sorting

    [Array.prototype.sort] is stable; with a comparator [cmp] it puts [a]
    before [b] when [cmp a b < 0] and keeps the order of the two when
    [cmp a b = 0].  The embedding is the stable insertion sort. *)
Section Sort.
Context {A : Type} (leb : A -> A -> bool).

Fixpoint insertBy (x : A) (l : list A) : list A :=
  match l with
  | [] => [x]
  | y :: t => if leb x y then x :: y :: t else y :: insertBy x t
  end.

Definition sortBy (l : list A) : list A := fold_right insertBy [] l.
End Sort.

(** [orderBy: [{ position: 'asc' }, { joinedAt: 'asc' }]] *)
Definition entry_leb (a b : WaitingQueueEntry) : bool :=
  (position a <? position b)%Z
  || ((position a =? position b)%Z && (joinedAt a <=? joinedAt b)%Z).

(** [(a, b) => a.rating - b.rating] is not positive. *)
Definition rating_leb (a b : User) : bool := Qle_bool (rating a - rating b) 0.

(** [waitingQueueEntry.findMany({ where: { sessionId }, orderBy: ... })] *)
Definition findQueue (db : Db) (sid : string) : list WaitingQueueEntry :=
  sortBy entry_leb (filter (fun e => String.eqb (q_sessionId e) sid) (waitingQueue db)).

(** [include: { user: true }] followed by [queue.map(q => q.user)]: the user
    row of every entry; the relation is required, a missing row is an
    error of the client. *)
Fixpoint includeUsers (db : Db) (q : list WaitingQueueEntry) : option (list User) :=
  match q with
  | [] => Some []
  | e :: t =>
      match findUser db (q_userId e), includeUsers db t with
      | Some u, Some us => Some (u :: us)
      | _, _ => None
      end
  end.

(** ** Rating model *)

Definition expectedScore (rt : Runtime) (ratingA ratingB : Q) : Q :=
  1 / (1 + Math_pow rt 10 ((ratingB - ratingA) / 400)).

Definition eloUpdate (current expected score k : Q) : Q :=
  current + k * (score - expected).

(** The default value of the parameter [k]. *)
Definition eloUpdate_k : Q := 32.

Definition averageTeamRating (a b : Q) : Q := (a + b) / 2.

(** ** Match scheduler *)

Definition Qltb (x y : Q) : bool :=
  match (x ?= y)%Q with
  | Lt => true
  | _ => false
  end.

(** [usedCourts.has(court)] *)
Definition has (usedCourts : list Z) (c : Z) : bool := existsb (Z.eqb c) usedCourts.

(** [while (usedCourts.has(court)) court++], run for at most [fuel] tests. *)
Fixpoint skipUsedFrom (fuel : nat) (usedCourts : list Z) (c : Z) : Z :=
  match fuel with
  | O => c
  | S fuel' => if has usedCourts c then skipUsedFrom fuel' usedCourts (c + 1) else c
  end.

(** One more test than there are used courts is enough for the loop to
    leave by its condition (lemma [skipUsed_free]). *)
Definition skipUsed (usedCourts : list Z) (c : Z) : Z :=
  skipUsedFrom (S (length usedCourts)) usedCourts c.

(** [l[i] = x] for an index inside the array. *)
Fixpoint setAt {A : Type} (i : nat) (x : A) (l : list A) : list A :=
  match l, i with
  | [], _ => []
  | _ :: t, O => x :: t
  | y :: t, S i' => y :: setAt i' x t
  end.

(** [tmp = l[i]; l[i] = l[j]; l[j] = tmp]; the caller's guard keeps both
    indices inside the array. *)
Definition swapAt {A : Type} (l : list A) (i j : nat) : list A :=
  match nth_error l i, nth_error l j with
  | Some x, Some y => setAt j x (setAt i y l)
  | _, _ => l
  end.

(** [l.slice(i, j)] *)
Definition slice {A : Type} (i j : nat) (l : list A) : list A :=
  firstn (j - i) (skipn i l).

(** [deleteMany({ where: { sessionId, userId: { in: ids } } })] *)
Definition deleteMany (sid : string) (ids : list string) (db : Db) : Db :=
  set_waitingQueue
    (filter (fun e => negb (String.eqb (q_sessionId e) sid
                           && existsb (String.eqb (q_userId e)) ids))
            (waitingQueue db)) db.

(** [match.create]: the new row goes to the end of the table. *)
Definition createMatch (m : Match) (db : Db) : Db :=
  set_matches (matches db ++ [m]) db.

Definition newMatch (rt : Runtime) (k : nat) (sid : string) (c : Z)
    (g0 g1 g2 g3 : User) : Match :=
  mkMatch (freshId rt k) sid c SCHEDULED None None
          (userId g0) (userId g1) (userId g2) (userId g3) None.

(** The [for] loop of [generateUpcomingMatches].  [i], [players], [court],
    [created] are the loop's variables, [db] the store; an iteration makes
    one call of [Math.random] and creates one row, so both are numbered by
    [created.length].  [fuel] bounds the number of iterations; the loop is
    started with [players.length], which it cannot use up: it advances [i]
    by four (lemma [matchLoop_fuel]).  The [slice] has four elements by the
    loop's condition. *)
Fixpoint matchLoop (rt : Runtime) (sid : string) (availableCourts : Z)
    (usedCourts : list Z) (fuel : nat) (i : nat) (players : list User)
    (court : Z) (created : list Match) (db : Db) : Db * list Match :=
  match fuel with
  | O => (db, created)
  | S fuel' =>
      if (i + 3 <? length players)
         && (Z.of_nat (length created) <? availableCourts)%Z
      then
        let players :=
          if Qltb (Math_random rt (length created)) 0.2
             && (i + 4 <? length players)
          then swapAt players (i + 3) (i + 4)
          else players in
        match slice i (i + 4) players with
        | [g0; g1; g2; g3] =>
            let m := newMatch rt (length created) sid court g0 g1 g2 g3 in
            let db := createMatch m db in
            let db := deleteMany sid [userId g0; userId g1; userId g2; userId g3] db in
            matchLoop rt sid availableCourts usedCourts fuel' (i + 4) players
                      (skipUsed usedCourts (court + 1)) (created ++ [m]) db
        | _ => (db, created)
        end
      else (db, created)
  end.

Definition generateUpcomingMatches (rt : Runtime) (db : Db) (sid : string)
    : Db * Outcome (list Match) :=
  match findSession db sid with
  | None => (db, Threw "Session not found")
  | Some session =>
      let inUse := Z.of_nat (length (liveMatches db sid)) in
      let availableCourts := Z.max 0 (courts session - inUse) in
      if (availableCourts <=? 0)%Z then (db, Returned [])
      else
        match includeUsers db (findQueue db sid) with
        | None => (db, Threw "Inconsistent query result")
        | Some queued =>
            let players := sortBy rating_leb queued in
            let usedCourts := map court (liveMatches db sid) in
            let court := skipUsed usedCourts 1 in
            let (db', created) :=
              matchLoop rt sid availableCourts usedCourts (length players)
                        0 players court [] db in
            (db', Returned created)
        end
  end.

(** ** Handlers *)

(** [POST /api/session/:sessionId/generate] *)
Definition generateMatches (rt : Runtime) (db : Db) (sid : string)
    : Db * Reply (list Match) :=
  match generateUpcomingMatches rt db sid with
  | (db', Returned created) => (db', Json created)
  | (db', Threw msg) => (db', Status 400 msg)
  end.

(** [_max: { position: true }] over the entries of the session. *)
Definition maxPosition (db : Db) (sid : string) : option Z :=
  fold_left
    (fun acc e =>
       if String.eqb (q_sessionId e) sid then
         match acc with
         | None => Some (position e)
         | Some p => Some (Z.max p (position e))
         end
       else acc)
    (waitingQueue db) None.

Definition findEntry (db : Db) (sid uid : string) : option WaitingQueueEntry :=
  find (fun e => String.eqb (q_sessionId e) sid && String.eqb (q_userId e) uid)
       (waitingQueue db).

(** [POST /api/session/:sessionId/queue/join]; [uid] is [req.userId].  The
    created row references the user row (foreign key of the migration). *)
Definition joinQueue (rt : Runtime) (db : Db) (sid uid : string)
    : Db * Reply WaitingQueueEntry :=
  match findSession db sid with
  | None => (db, Status 400 "Invalid session")
  | Some session =>
      if negb (isActive session) then (db, Status 400 "Invalid session")
      else
        let position :=
          (match maxPosition db sid with Some p => p | None => 0 end + 1)%Z in
        match findEntry db sid uid with
        | Some entry => (db, Json entry)
        | None =>
            match findUser db uid with
            | None => (db, Rejected "Foreign key constraint failed")
            | Some _ =>
                let entry := mkEntry sid uid position (Date_now rt) in
                (set_waitingQueue (waitingQueue db ++ [entry]) db, Json entry)
            end
        end
  end.

(** [POST /api/match/:matchId/start] *)
Definition startMatch (rt : Runtime) (db : Db) (id : string) : Db * Reply Match :=
  match findMatch db id with
  | None => (db, Rejected "Record to update not found")
  | Some m =>
      (updateMatch id (with_started (Date_now rt)) db,
       Json (with_started (Date_now rt) m))
  end.

(** A value of a JSON request body's property. *)
Inductive JsValue : Type :=
| JsUndefined
| JsNull
| JsBoolean (b : bool)
| JsString (s : string)
| JsNumber (q : Q).

(** [z.object({ winnerTeam: z.number().min(1).max(2) }).safeParse(req.body)],
    on the [winnerTeam] property of the body. *)
Definition parseWinnerTeam (v : JsValue) : option Q :=
  match v with
  | JsNumber q => if Qle_bool 1 q && Qle_bool q 2 then Some q else None
  | _ => None
  end.

(** What the client writes into an INTEGER column ([Match.winnerTeam],
    [Session.courts]) for a JavaScript number: the number without its
    fractional part (1.5 is stored as 1, 2.5 as 2); the write goes through. *)
Definition asInt (q : Q) : Z := Z.quot (Qnum q) (Zpos (Qden q)).

(** [POST /api/match/:matchId/finish] *)
Definition finishMatch (rt : Runtime) (db : Db) (id : string) (body : JsValue)
    : Db * Reply Match :=
  match parseWinnerTeam body with
  | None => (db, Status 400 "ZodError")
  | Some winnerTeam =>
      match findMatch db id with
      | None => (db, Status 404 "Match not found")
      | Some m =>
          match findUser db (p1Id m), findUser db (p2Id m),
                findUser db (p3Id m), findUser db (p4Id m) with
          | Some p1, Some p2, Some p3, Some p4 =>
              let team1Avg : Q := averageTeamRating (rating p1) (rating p2) in
              let team2Avg : Q := averageTeamRating (rating p3) (rating p4) in
              let score1 : Q := (if Qeq_bool winnerTeam 1 then 1 else 0)%Q in
              let score2 : Q := (if Qeq_bool winnerTeam 2 then 1 else 0)%Q in
              let exp1 : Q := expectedScore rt team1Avg team2Avg in
              let exp2 : Q := expectedScore rt team2Avg team1Avg in
              let newTeam1 : Q := eloUpdate team1Avg team2Avg score1 eloUpdate_k in
              let newTeam2 : Q := eloUpdate team2Avg team1Avg score2 eloUpdate_k in
              let delta1 : Q := (newTeam1 - team1Avg)%Q in
              let delta2 : Q := (newTeam2 - team2Avg)%Q in
              (* prisma.$transaction([...]) *)
              let db := updateUser (p1Id m) (rating p1 + delta1 / 2) db in
              let db := updateUser (p2Id m) (rating p2 + delta1 / 2) db in
              let db := updateUser (p3Id m) (rating p3 + delta2 / 2) db in
              let db := updateUser (p4Id m) (rating p4 + delta2 / 2) db in
              (* prisma.ratingHistory.createMany *)
              let db :=
                set_ratingHistory
                  (ratingHistory db ++
                   [ mkHistory (p1Id m) (delta1 / 2) (rating p1 + delta1 / 2) id;
                     mkHistory (p2Id m) (delta1 / 2) (rating p2 + delta1 / 2) id;
                     mkHistory (p3Id m) (delta2 / 2) (rating p3 + delta2 / 2) id;
                     mkHistory (p4Id m) (delta2 / 2) (rating p4 + delta2 / 2) id ])
                  db in
              (* prisma.match.update *)
              let w : Z := asInt winnerTeam in
              let updated := with_finished w (Date_now rt) m in
              let db := updateMatch id (with_finished w (Date_now rt)) db in
              match generateUpcomingMatches rt db (m_sessionId m) with
              | (db, Returned _) => (db, Json updated)
              | (db, Threw msg) => (db, Rejected msg)
              end
          | _, _, _, _ => (db, Rejected "Inconsistent query result")
          end
      end
  end.

(** ** The rating rule as the specification words it

    "New team rating: teamAvg + K (score - expected), with K = 32", where
    "expected" of a team is the logistic expectation against the other
    team's average, and "the per-team delta is split evenly between its two
    members". *)
Definition spec_teamDelta (rt : Runtime) (ownAvg oppAvg score : Q) : Q :=
  (eloUpdate ownAvg (expectedScore rt ownAvg oppAvg) score 32 - ownAvg)%Q.

Definition spec_memberRating (rt : Runtime) (own mate opp1 opp2 score : Q) : Q :=
  (own + spec_teamDelta rt (averageTeamRating own mate)
                        (averageTeamRating opp1 opp2) score / 2)%Q.

(** ** A concrete store, used for the examples *)

(** A power function that is exact on integer exponents. *)
Definition powInt (b e : Q) : Q := Qpower b (Qnum (Qred e)).

(** A runtime whose random draws are all [0.5] (no swap) and whose new
    keys are [tag] followed by a digit. *)
Definition ex_rt (tag : string) : Runtime :=
  mkRuntime powInt (fun _ => 0.5%Q) 1700000000000%Z
            (fun k => tag ++ String (Ascii.ascii_of_nat (48 + k)) "")%string.

Definition ex_users : list User :=
  [mkUser "ann" 1200; mkUser "bob" 1200; mkUser "cat" 1200; mkUser "dan" 1200].

Definition ex_match (st : MatchStatus) : Match :=
  mkMatch "m1" "s1" 1 st None None "ann" "bob" "cat" "dan" None.

(** Four players rated 1200, one session with five courts, one match. *)
Definition ex_db (st : MatchStatus) : Db :=
  mkDb ex_users [mkSession "s1" 5 true] [ex_match st] [] [].

(** That store once the match, SCHEDULED, has been finished, team 1 the
    winner. *)
Definition ex_db_finished : Db :=
  fst (finishMatch (ex_rt "n") (ex_db SCHEDULED) "m1" (JsNumber 1)).

(** ** Predicates used in the statements *)

(** A store that differs from [db] in its [Match] table only. *)
Definition sameButMatches (db db' : Db) : Prop :=
  users db' = users db /\ sessions db' = sessions db
  /\ waitingQueue db' = waitingQueue db /\ ratingHistory db' = ratingHistory db.


(** One request to the engine, and the store it leaves. *)
Inductive Request : Type :=
| JoinQueue (sid uid : string)
| GenerateMatches (sid : string)
| StartMatch (id : string)
| FinishMatch (id : string) (body : JsValue).

Definition handle (rt : Runtime) (db : Db) (r : Request) : Db :=
  match r with
  | JoinQueue sid uid => fst (joinQueue rt db sid uid)
  | GenerateMatches sid => fst (generateMatches rt db sid)
  | StartMatch id => fst (startMatch rt db id)
  | FinishMatch id body => fst (finishMatch rt db id body)
  end.

(** No two SCHEDULED or ONGOING matches of one session share a court. *)
Definition courtsUnique (db : Db) : Prop :=
  forall sid, NoDup (map court (liveMatches db sid)).

(** [c] is the lowest court number, from 1, that is not in [occupied]. *)
Definition lowestFree (occupied : list Z) (c : Z) : Prop :=
  (1 <= c)%Z /\ ~ In c occupied
  /\ forall c', (1 <= c' < c)%Z -> In c' occupied.

(** The four player keys of a match, team 1 first. *)
Definition playersOf (m : Match) : list string :=
  [p1Id m; p2Id m; p3Id m; p4Id m].

(** The entry does not belong to session [sid] and one of [ids]. *)
Definition keptEntry (sid : string) (ids : list string) (e : WaitingQueueEntry) : bool :=
  negb (String.eqb (q_sessionId e) sid && existsb (String.eqb (q_userId e)) ids).

(** ** The scheduler as the specification words it

    Steps 4 and 5 of [generate]: walk the line of players in consecutive
    groups of four while courts are available; before a group is formed,
    when the draw is below 0.2 and a fifth player exists, its fourth player
    changes place with the next in line; team 1 is the first two of the
    group, team 2 the last two; the match is created SCHEDULED on the next
    free court and the four leave the queue. *)
Fixpoint spec_walk (rt : Runtime) (sid : string) (usedCourts : list Z)
    (available : nat) (k : nat) (line : list User) (c : Z) (db : Db)
    : Db * list Match :=
  match available, line with
  | S available', g0 :: g1 :: g2 :: g3 :: next =>
      let '(fourth, next) :=
        match next with
        | g4 :: later =>
            if Qltb (Math_random rt k) 0.2 then (g4, g3 :: later) else (g3, next)
        | [] => (g3, [])
        end in
      let m := mkMatch (freshId rt k) sid c SCHEDULED None None
                       (userId g0) (userId g1) (userId g2) (userId fourth) None in
      let db := createMatch m db in
      let db := deleteMany sid (playersOf m) db in
      let '(db, ms) :=
        spec_walk rt sid usedCourts available' (S k) next
                  (skipUsed usedCourts (c + 1)) db in
      (db, m :: ms)
  | _, _ => (db, [])
  end.

(** Steps 1 to 6 of [generate]. *)
Definition spec_generate (rt : Runtime) (db : Db) (sid : string)
    : Db * Outcome (list Match) :=
  match findSession db sid with
  | None => (db, Threw "Session not found")
  | Some session =>
      let inUse := Z.of_nat (length (liveMatches db sid)) in
      let available := Z.to_nat (Z.max 0 (courts session - inUse)) in
      match available with
      | O => (db, Returned [])
      | S _ =>
          match includeUsers db (findQueue db sid) with
          | None => (db, Threw "Inconsistent query result")
          | Some queued =>
              let usedCourts := map court (liveMatches db sid) in
              let '(db', created) :=
                spec_walk rt sid usedCourts available 0
                          (sortBy rating_leb queued) (skipUsed usedCourts 1) db in
              (db', Returned created)
          end
      end
  end.

(** The state of the court scan between two iterations of the loop:
    [occ] are the courts occupied in the session (those of [used], found
    before the loop, and those given out since), [c] is the loop's
    [court]. *)
Definition scanState (used occ : list Z) (c : Z) : Prop :=
  (1 <= c)%Z
  /\ has used c = false
  /\ (forall x, In x occ -> In x used \/ (x < c)%Z)
  /\ (forall x, In x used -> In x occ)
  /\ (forall x, (1 <= x < c)%Z -> In x occ).

(** The request is not a [startMatch] on a FINISHED match. *)
Definition notRestart (db : Db) (r : Request) : Prop :=
  match r with
  | StartMatch id => forall m, findMatch db id = Some m -> status m <> FINISHED
  | _ => True
  end.

(** Eight players and one session with a single court. *)
Definition ex_db8 : Db :=
  mkDb [mkUser "u1" 1000; mkUser "u2" 1050; mkUser "u3" 1100; mkUser "u4" 1150;
        mkUser "u5" 1200; mkUser "u6" 1250; mkUser "u7" 1300; mkUser "u8" 1350]
       [mkSession "s1" 1 true] [] [] [].

(** Requests handled one after the other, each with its runtime. *)
Definition run (script : list (Runtime * Request)) (db : Db) : Db :=
  fold_left (fun d step => handle (fst step) d (snd step)) script db.

(** The eight players join, a match is generated on the only court (its key
    is ["g0"]) and finished; finishing it schedules the next four on the
    freed court (key ["h0"]). *)
Definition ex_script : list (Runtime * Request) :=
  map (fun u => (ex_rt "j", JoinQueue "s1" u))
      ["u1"; "u2"; "u3"; "u4"; "u5"; "u6"; "u7"; "u8"]
  ++ [(ex_rt "g", GenerateMatches "s1");
      (ex_rt "h", FinishMatch "g0" (JsNumber 1))].


(** The entries of player [uid] in the queue of session [sid]. *)
Definition entriesOf (db : Db) (sid uid : string) : list WaitingQueueEntry :=
  filter (fun e => String.eqb (q_sessionId e) sid && String.eqb (q_userId e) uid)
         (waitingQueue db).

(** The number of players waiting in session [sid]. *)
Definition waitingCount (db : Db) (sid : string) : nat :=
  length (filter (fun e => String.eqb (q_sessionId e) sid) (waitingQueue db)).

(** The store of [ex_db8] once the eight players have joined. *)
Definition ex_db8_queued : Db := run (firstn 8 ex_script) ex_db8.

(** The runtime [ex_rt] with every draw at [0.1]: the swap is taken
    whenever a fifth player exists. *)
Definition ex_rt_swap (tag : string) : Runtime :=
  mkRuntime powInt (fun _ => 0.1%Q) 1700000000000%Z (freshId (ex_rt tag)).

(** The runtime [rt] with another [Math.pow]. *)
Definition withPow (pow : Q -> Q -> Q) (rt : Runtime) : Runtime :=
  mkRuntime pow (Math_random rt) (Date_now rt) (freshId rt).


(** ** The other routes of the server *)

Definition set_sessions (ss : list Session) (db : Db) : Db :=
  mkDb (users db) ss (matches db) (waitingQueue db) (ratingHistory db).

(** [z.number().min(lo).max(hi).default(dflt)] on a property of the body:
    the default stands for a property that is not there. *)
Definition parseNumber (lo hi dflt : Q) (v : JsValue) : option Q :=
  match v with
  | JsUndefined => Some dflt
  | JsNumber q => if Qle_bool lo q && Qle_bool q hi then Some q else None
  | _ => None
  end.

(** [POST /api/session/start], on the properties [courts] and
    [durationHours] of the body.  The row is created active; its key is
    the first key the runtime hands out in the call.  Of the row, the
    columns of [Session] are kept: [durationHours] goes into the end time
    only.  The column [courts] is INTEGER: a fractional [courts] is stored
    without its fractional part. *)
Definition startSession (rt : Runtime) (db : Db) (courtsIn durationHoursIn : JsValue)
    : Db * Reply Session :=
  match parseNumber 1 20 5 courtsIn, parseNumber 1 6 3 durationHoursIn with
  | Some c, Some _ =>
      let session := mkSession (freshId rt 0) (asInt c) true in
      (set_sessions (sessions db ++ [session]) db, Json session)
  | _, _ => (db, Status 400 "ZodError")
  end.

(** [orderBy: { position: 'asc' }] *)
Definition position_leb (a b : WaitingQueueEntry) : bool :=
  (position a <=? position b)%Z.

(** [include: { user: true }], the entry kept with its user row. *)
Fixpoint withUsers (db : Db) (q : list WaitingQueueEntry)
    : option (list (WaitingQueueEntry * User)) :=
  match q with
  | [] => Some []
  | e :: t =>
      match findUser db (q_userId e), withUsers db t with
      | Some u, Some rows => Some ((e, u) :: rows)
      | _, _ => None
      end
  end.

(** [GET /api/session/:sessionId/queue] *)
Definition listQueue (db : Db) (sid : string)
    : Reply (list (WaitingQueueEntry * User)) :=
  match withUsers db
          (sortBy position_leb
             (filter (fun e => String.eqb (q_sessionId e) sid) (waitingQueue db))) with
  | Some rows => Json rows
  | None => Rejected "Inconsistent query result"
  end.

(** [orderBy: { rating: 'desc' }] *)
Definition rating_geb (a b : User) : bool := Qle_bool (rating b) (rating a).

(** [GET /api/leaderboard]: [findMany({ orderBy: { rating: 'desc' }, take: 100 })] *)
Definition leaderboard (db : Db) : list User :=
  firstn 100 (sortBy rating_geb (users db)).

(** The character U+0020. *)
Definition space : Ascii.ascii := Ascii.ascii_of_nat 32.

(** [s.split(' ')] *)
Fixpoint splitSpace (s : string) : list string :=
  match s with
  | EmptyString => [EmptyString]
  | String c rest =>
      if Ascii.eqb c space then EmptyString :: splitSpace rest
      else
        match splitSpace rest with
        | piece :: pieces => String c piece :: pieces
        | [] => [String c EmptyString]
        end
  end.

(** What [authMiddleware] does: it calls [next] with [req.userId] set, or
    answers itself. *)
Inductive Auth : Type :=
| Next (userId : string)
| Deny (code : Z) (error : string).

(** [authMiddleware]; [header] is [req.headers.authorization] and [verify]
    stands for [jwt.verify(token, JWT_SECRET)]: the [sub] of the payload,
    or nothing when it throws.  Without a second piece the token is
    [undefined] and [jwt.verify] throws. *)
Definition authMiddleware (verify : string -> option string) (header : option string)
    : Auth :=
  match header with
  | None => Deny 401 "Missing token"
  | Some EmptyString => Deny 401 "Missing token"
  | Some h =>
      match nth_error (splitSpace h) 1 with
      | None => Deny 401 "Invalid token"
      | Some token =>
          match verify token with
          | Some sub => Next sub
          | None => Deny 401 "Invalid token"
          end
      end
  end.

(** A call that writes to the store: one of the four requests of the
    engine, or [session/start]. *)
Inductive Call : Type :=
| Engine (r : Request)
| StartSession (courtsIn durationHoursIn : JsValue).

Definition perform (rt : Runtime) (db : Db) (c : Call) : Db :=
  match c with
  | Engine r => handle rt db r
  | StartSession courtsIn durationHoursIn =>
      fst (startSession rt db courtsIn durationHoursIn)
  end.

(** ** Further predicates *)

Definition inSession (sid : string) (e : WaitingQueueEntry) : bool :=
  String.eqb (q_sessionId e) sid.

(** No player waits twice in the queue of one session (the unique index of
    the table). *)
Definition queueUnique (db : Db) : Prop :=
  forall sid, NoDup (map q_userId (filter (inSession sid) (waitingQueue db))).

(** A string without a space. *)
Fixpoint noSpace (s : string) : bool :=
  match s with
  | EmptyString => true
  | String c rest => negb (Ascii.eqb c space) && noSpace rest
  end.

(** [m'] is the match [m] with its key, session, court and players. *)
Definition sameFixture (m m' : Match) : Prop :=
  matchId m' = matchId m /\ m_sessionId m' = m_sessionId m
  /\ court m' = court m /\ playersOf m' = playersOf m.

(** The store of [ex_db8] once the eight players have joined and the first
    match ("g0": u1, u2 against u3, u4) is scheduled. *)
Definition ex_db8_scheduled : Db := run (firstn 9 ex_script) ex_db8.

(** [ex_db8_queued] with a second session, "t0", whose queue holds u1. *)
Definition ex_db_two : Db :=
  fst (joinQueue (ex_rt "j")
         (fst (startSession (ex_rt "t") ex_db8_queued JsUndefined JsUndefined))
         "t0" "u1").

(** * Properties *)

(** ** Rating engine *)

(** ** The expected score is not used *)

Lemma matchLoop_withPow (pow : Q -> Q -> Q) (rt : Runtime) (sid : string)
    (avail : Z) (used : list Z) :
  forall (fuel i : nat) (players : list User) (c : Z) (created : list Match) (db : Db),
    matchLoop (withPow pow rt) sid avail used fuel i players c created db
    = matchLoop rt sid avail used fuel i players c created db.
Proof.
  induction fuel as [|fuel IH]; intros i players c created db; [reflexivity|].
  cbn [matchLoop].
  destruct ((i + 3 <? length players)
            && (Z.of_nat (length created) <? avail)%Z); [|reflexivity].
  change (Math_random (withPow pow rt)) with (Math_random rt).
  destruct (slice i (i + 4) _) as [|g0 [|g1 [|g2 [|g3 [|g4 t]]]]]; try reflexivity.
  apply IH.
Qed.

Lemma generate_withPow (pow : Q -> Q -> Q) (rt : Runtime) (db : Db) (sid : string) :
  generateUpcomingMatches (withPow pow rt) db sid = generateUpcomingMatches rt db sid.
Proof.
  unfold generateUpcomingMatches.
  destruct (findSession db sid) as [session|]; [|reflexivity].
  destruct (_ <=? 0)%Z; [reflexivity|].
  destruct (includeUsers db (findQueue db sid)) as [queued|]; [|reflexivity].
  rewrite matchLoop_withPow. reflexivity.
Qed.

(** What [finishMatch] answers and stores does not depend on [Math.pow]:
    the two expected scores, the only values computed with it, reach
    neither the ratings nor the history. *)
Lemma finishMatch_ignores_Math_pow (pow : Q -> Q -> Q) (rt : Runtime) (db : Db)
    (id : string) (body : JsValue) :
  finishMatch (withPow pow rt) db id body = finishMatch rt db id body.
Proof.
  unfold finishMatch.
  destruct (parseWinnerTeam body) as [w|]; [|reflexivity].
  destruct (findMatch db id) as [m|]; [|reflexivity].
  destruct (findUser db (p1Id m)) as [p1|]; [|reflexivity].
  destruct (findUser db (p2Id m)) as [p2|]; [|reflexivity].
  destruct (findUser db (p3Id m)) as [p3|]; [|reflexivity].
  destruct (findUser db (p4Id m)) as [p4|]; [|reflexivity].
  cbv zeta. generalize (asInt w). intros z.
  change (Date_now (withPow pow rt)) with (Date_now rt).
  rewrite generate_withPow. reflexivity.
Qed.

(** The two team changes as the handler computes them, each counted for
    its two members, add up to [32 * (1 - team1Avg - team2Avg)] when one
    team scores 1 and the other 0. *)
Lemma handler_changes_sum (team1Avg team2Avg score1 score2 : Q) :
  (score1 + score2 == 1)%Q ->
  ((eloUpdate team1Avg team2Avg score1 eloUpdate_k - team1Avg) / 2
   + (eloUpdate team1Avg team2Avg score1 eloUpdate_k - team1Avg) / 2
   + (eloUpdate team2Avg team1Avg score2 eloUpdate_k - team2Avg) / 2
   + (eloUpdate team2Avg team1Avg score2 eloUpdate_k - team2Avg) / 2
   == 32 * (1 - team1Avg - team2Avg))%Q.
Proof.
  intros H. unfold eloUpdate, eloUpdate_k.
  setoid_replace score1 with (1 - score2)%Q
    by (rewrite <- H; ring).
  field.
Qed.

(** With the expected scores in their place the same sum is zero, as the
    two expectations add up to 1. *)
Lemma spec_changes_sum (rt : Runtime) (team1Avg team2Avg score1 score2 : Q) :
  (score1 + score2 == 1)%Q ->
  (expectedScore rt team1Avg team2Avg + expectedScore rt team2Avg team1Avg == 1)%Q ->
  (spec_teamDelta rt team1Avg team2Avg score1 / 2
   + spec_teamDelta rt team1Avg team2Avg score1 / 2
   + spec_teamDelta rt team2Avg team1Avg score2 / 2
   + spec_teamDelta rt team2Avg team1Avg score2 / 2 == 0)%Q.
Proof.
  intros H He. unfold spec_teamDelta, eloUpdate.
  setoid_replace score1 with (1 - score2)%Q by (rewrite <- H; ring).
  setoid_replace (expectedScore rt team1Avg team2Avg)
    with (1 - expectedScore rt team2Avg team1Avg)%Q by (rewrite <- He; ring).
  field.
Qed.

(** C1 (the code departs from the claim).  [finishMatch] passes the other
    team's average rating to [eloUpdate] where the claim has the expected
    score, which it computes and then drops.  With four players rated 1200
    and team 1 winning, the rule of the claim gives 1208, 1208, 1192, 1192;
    the handler stores -17984, -17984, -18000, -18000. *)
Theorem finishMatch_expected_is_opponent_average :
  let rt := ex_rt "n" in
  let db' := fst (finishMatch rt (ex_db SCHEDULED) "m1" (JsNumber 1)) in
  Forall2 Qeq (map rating (users db')) [-17984; -17984; -18000; -18000]%Q
  /\ Forall2 Qeq
       [spec_memberRating rt 1200 1200 1200 1200 1;
        spec_memberRating rt 1200 1200 1200 1200 1;
        spec_memberRating rt 1200 1200 1200 1200 0;
        spec_memberRating rt 1200 1200 1200 1200 0]
       [1208; 1208; 1192; 1192]%Q.
Proof.
  split; vm_compute; repeat constructor.
Qed.

(** C2 (the code departs from the claim).  In the same call the four
    recorded and applied changes are -19184, -19184, -19200, -19200: their
    sum is -76768, not zero. *)
Theorem finishMatch_changes_do_not_cancel :
  let db' := fst (finishMatch (ex_rt "n") (ex_db SCHEDULED) "m1" (JsNumber 1)) in
  Forall2 Qeq (map change (ratingHistory db')) [-19184; -19184; -19200; -19200]%Q
  /\ (fold_right Qplus 0 (map change (ratingHistory db')) == -76768)%Q
  /\ ~ (fold_right Qplus 0 (map change (ratingHistory db')) == 0)%Q.
Proof.
  repeat split; try (vm_compute; repeat constructor; fail).
  vm_compute. discriminate.
Qed.

(** ** Rows and keys: [find] after [updateFirst] *)

Section UpdateFirst.
Context {A : Type} (p : A -> bool) (f : A -> A).
Hypothesis key_kept : forall x, p (f x) = p x.

Lemma find_updateFirst_same (l : list A) :
  find p (updateFirst p f l) = option_map f (find p l).
Proof.
  induction l as [|x t IH]; simpl; [reflexivity|].
  destruct (p x) eqn:Hx; simpl.
  - rewrite key_kept, Hx. reflexivity.
  - rewrite Hx. exact IH.
Qed.

Lemma find_updateFirst_other (q : A -> bool) (l : list A) :
  (forall x, p x = true -> q x = false /\ q (f x) = false) ->
  find q (updateFirst p f l) = find q l.
Proof.
  intros Hq. induction l as [|x t IH]; simpl; [reflexivity|].
  destruct (p x) eqn:Hx; simpl.
  - destruct (Hq x Hx) as [H1 H2]. rewrite H1, H2. reflexivity.
  - destruct (q x); [reflexivity | exact IH].
Qed.

Lemma updateFirst_length (l : list A) :
  length (updateFirst p f l) = length l.
Proof.
  induction l as [|x t IH]; simpl; [reflexivity|].
  destruct (p x); simpl; congruence.
Qed.

Lemma updateFirst_absent (l : list A) :
  find p l = None -> updateFirst p f l = l.
Proof.
  induction l as [|x t IH]; simpl; [reflexivity|].
  destruct (p x); [discriminate|]. intros H. rewrite IH by exact H. reflexivity.
Qed.
End UpdateFirst.

Lemma find_some_key {A : Type} (p : A -> bool) (l : list A) (x : A) :
  find p l = Some x -> p x = true.
Proof. intros H. apply find_some in H. tauto. Qed.

Lemma findMatch_key (db : Db) (id : string) (m : Match) :
  findMatch db id = Some m -> matchId m = id.
Proof.
  intros H. apply find_some_key in H. apply String.eqb_eq in H. exact H.
Qed.

Lemma findUser_key (db : Db) (id : string) (u : User) :
  findUser db id = Some u -> userId u = id.
Proof.
  intros H. apply find_some_key in H. apply String.eqb_eq in H. exact H.
Qed.

(** ** Match lifecycle *)

(** C4 as stated fails: [ex_db_finished] holds the match "m1", FINISHED;
    [startMatch] on it answers 200 and rewrites the row to ONGOING. *)
Lemma startMatch_finished_counterexample :
  let rt := ex_rt "k" in
  let out := startMatch rt ex_db_finished "m1" in
  option_map status (findMatch ex_db_finished "m1") = Some FINISHED
  /\ match snd out with
     | Json m' => status m' = ONGOING /\ startedAt m' = Some (Date_now rt)
     | _ => False
     end
  /\ option_map status (findMatch (fst out) "m1") = Some ONGOING
  /\ matches (fst out) <> matches ex_db_finished.
Proof.
  repeat split; try reflexivity.
  vm_compute. discriminate.
Qed.

(** C4 (amended).  [startMatch] looks at no status: on every existing
    match, SCHEDULED, ONGOING or FINISHED, it answers with the match set to
    ONGOING and stamped with the start time, stores that row, and leaves
    every other row and table as they were. *)
Theorem startMatch_sets_ongoing (rt : Runtime) (db : Db) (id : string) (m : Match) :
  findMatch db id = Some m ->
  let m' := with_started (Date_now rt) m in
  startMatch rt db id = (updateMatch id (with_started (Date_now rt)) db, Json m')
  /\ status m' = ONGOING
  /\ startedAt m' = Some (Date_now rt)
  /\ findMatch (fst (startMatch rt db id)) id = Some m'
  /\ (forall id', id' <> id ->
        findMatch (fst (startMatch rt db id)) id' = findMatch db id')
  /\ sameButMatches db (fst (startMatch rt db id)).
Proof.
  intros Hm m'. unfold startMatch. rewrite Hm. simpl.
  split; [reflexivity|]. split; [reflexivity|]. split; [reflexivity|].
  split; [|split].
  - unfold findMatch, updateMatch. simpl.
    rewrite find_updateFirst_same by reflexivity.
    unfold findMatch in Hm. rewrite Hm. reflexivity.
  - intros id' Hne. unfold findMatch, updateMatch. simpl.
    apply find_updateFirst_other.
    intros x Hx. apply String.eqb_eq in Hx. simpl.
    split; apply String.eqb_neq; congruence.
  - repeat split.
Qed.

Lemma startMatch_sets_ongoing_witness :
  let rt := ex_rt "n" in
  findMatch (fst (startMatch rt (ex_db ONGOING) "m1")) "m1"
  = Some (with_started (Date_now rt) (ex_match ONGOING)).
Proof.
  intros rt.
  exact (proj1 (proj2 (proj2 (proj2
    (startMatch_sets_ongoing rt (ex_db ONGOING) "m1" (ex_match ONGOING) eq_refl))))).
Defined.

(** A key that names no match: the client throws, nothing is written. *)
Lemma startMatch_unknown (rt : Runtime) (db : Db) (id : string) :
  findMatch db id = None ->
  startMatch rt db id = (db, Rejected "Record to update not found").
Proof. intros H. unfold startMatch. rewrite H. reflexivity. Qed.

(** ** Validation of [winnerTeam] *)

(** A body the schema refuses is answered with 400 and nothing is written. *)
Lemma finishMatch_refused (rt : Runtime) (db : Db) (id : string) (body : JsValue) :
  parseWinnerTeam body = None ->
  finishMatch rt db id body = (db, Status 400 "ZodError").
Proof. intros H. unfold finishMatch. rewrite H. reflexivity. Qed.

(** The schema takes the numbers between 1 and 2, bounds included, and
    nothing else. *)
Lemma parseWinnerTeam_range (v : JsValue) (q : Q) :
  parseWinnerTeam v = Some q <-> v = JsNumber q /\ (1 <= q)%Q /\ (q <= 2)%Q.
Proof.
  destruct v as [| | b | s | q']; simpl;
    try (split; [discriminate | intros [H _]; discriminate H]).
  destruct (Qle_bool 1 q') eqn:H1; destruct (Qle_bool q' 2) eqn:H2; simpl;
    split; intros H;
    try discriminate H;
    try (injection H as ->; repeat split; apply Qle_bool_iff; assumption);
    destruct H as [Hv [Ha Hb]]; injection Hv as ->;
    apply Qle_bool_iff in Ha; apply Qle_bool_iff in Hb; congruence.
Qed.

(** Among the whole numbers exactly 1 and 2 pass. *)
Lemma parseWinnerTeam_whole (z : Z) :
  parseWinnerTeam (JsNumber (inject_Z z)) <> None <-> z = 1%Z \/ z = 2%Z.
Proof.
  unfold parseWinnerTeam.
  destruct (Qle_bool 1 (inject_Z z)) eqn:H1;
    destruct (Qle_bool (inject_Z z) 2) eqn:H2; simpl.
  - apply Qle_bool_iff in H1. apply Qle_bool_iff in H2.
    unfold Qle in H1, H2. simpl in H1, H2. split; [intros _; lia | discriminate].
  - split; [congruence|]. intros Hz. exfalso.
    assert (Qle_bool (inject_Z z) 2 = true) as E
      by (apply Qle_bool_iff; unfold Qle; simpl; lia). congruence.
  - split; [congruence|]. intros Hz. exfalso.
    assert (Qle_bool 1 (inject_Z z) = true) as E
      by (apply Qle_bool_iff; unfold Qle; simpl; lia). congruence.
  - split; [congruence|]. intros Hz. exfalso.
    assert (Qle_bool 1 (inject_Z z) = true) as E
      by (apply Qle_bool_iff; unfold Qle; simpl; lia). congruence.
Qed.

(** C9 (the code departs from the claim).  The schema bounds the number
    and does not ask for a whole one: [winnerTeam = 1.5] passes, both scores
    are 0, the four ratings are rewritten (to -18000 each), four history
    rows are written, and the match is stored FINISHED with the winner cut
    to 1; the answer is the 200 with that row, where the claim has a
    validation error and no change of state. *)
Theorem finishMatch_accepts_fractional_winnerTeam :
  let rt := ex_rt "n" in
  let db := ex_db SCHEDULED in
  let out := finishMatch rt db "m1" (JsNumber 1.5) in
  let row := mkMatch "m1" "s1" 1 FINISHED None (Some (Date_now rt))
                     "ann" "bob" "cat" "dan" (Some 1%Z) in
  parseWinnerTeam (JsNumber 1.5) = Some 1.5%Q
  /\ snd out = Json row
  /\ findMatch (fst out) "m1" = Some row
  /\ Forall2 Qeq (map rating (users (fst out))) [-18000; -18000; -18000; -18000]%Q
  /\ users (fst out) <> users db
  /\ length (ratingHistory (fst out)) = 4.
Proof.
  cbv zeta. split; [reflexivity|].
  split; [vm_compute; reflexivity|].
  split; [vm_compute; reflexivity|].
  split; [vm_compute; repeat constructor|].
  split; [vm_compute; discriminate | vm_compute; reflexivity].
Qed.

(** ** The court scan *)

Lemma skipUsedFrom_ge (fuel : nat) (used : list Z) (c : Z) :
  (c <= skipUsedFrom fuel used c)%Z.
Proof.
  revert c. induction fuel as [|fuel IH]; intros c; simpl; [lia|].
  destruct (has used c); [|lia]. specialize (IH (c + 1)%Z). lia.
Qed.

Lemma skipUsedFrom_skipped (fuel : nat) (used : list Z) (c x : Z) :
  (c <= x < skipUsedFrom fuel used c)%Z -> has used x = true.
Proof.
  revert c. induction fuel as [|fuel IH]; intros c; simpl; [lia|].
  destruct (has used c) eqn:Hc; [|lia].
  intros Hx. destruct (Z.eq_dec x c) as [->|Hne]; [exact Hc|].
  apply (IH (c + 1)%Z). lia.
Qed.

Lemma has_In (used : list Z) (c : Z) : has used c = true <-> In c used.
Proof.
  unfold has. rewrite existsb_exists. split.
  - intros [x [Hin Hx]]. apply Z.eqb_eq in Hx. subst. exact Hin.
  - intros Hin. exists c. split; [exact Hin | apply Z.eqb_refl].
Qed.

(** The courts of [used] from [c] on: one fewer from [c + 1] on when [c] is
    used.  This is the measure that makes the scan stop. *)
Lemma used_from_next (used : list Z) (c : Z) :
  In c used ->
  length (filter (fun x => (c + 1 <=? x)%Z) used)
  < length (filter (fun x => (c <=? x)%Z) used).
Proof.
  induction used as [|y t IH]; simpl; [tauto|].
  assert (length (filter (fun x => (c + 1 <=? x)%Z) t)
          <= length (filter (fun x => (c <=? x)%Z) t)) as Hle.
  { clear. induction t as [|z t IH]; simpl; [lia|].
    destruct (c + 1 <=? z)%Z eqn:E1; destruct (c <=? z)%Z eqn:E2; simpl; lia. }
  intros [->|Hin].
  - replace (c + 1 <=? c)%Z with false by (symmetry; apply Z.leb_gt; lia).
    rewrite Z.leb_refl. simpl. lia.
  - specialize (IH Hin).
    destruct (c + 1 <=? y)%Z eqn:E1; destruct (c <=? y)%Z eqn:E2; simpl; lia.
Qed.

Lemma skipUsedFrom_free (fuel : nat) (used : list Z) (c : Z) :
  length (filter (fun x => (c <=? x)%Z) used) < fuel ->
  has used (skipUsedFrom fuel used c) = false.
Proof.
  revert c. induction fuel as [|fuel IH]; intros c Hlen; [lia|]. simpl.
  destruct (has used c) eqn:Hc; [|exact Hc].
  apply IH. apply has_In in Hc. pose proof (used_from_next used c Hc). lia.
Qed.

(** The scan of the source, [while (usedCourts.has(court)) court++], ends
    on a court that is not used; it never steps back and skips used courts
    only. *)
Lemma skipUsed_free (used : list Z) (c : Z) : has used (skipUsed used c) = false.
Proof.
  apply skipUsedFrom_free.
  pose proof (filter_length_le (fun x => (c <=? x)%Z) used). lia.
Qed.

Lemma skipUsed_ge (used : list Z) (c : Z) : (c <= skipUsed used c)%Z.
Proof. apply skipUsedFrom_ge. Qed.

Lemma skipUsed_skipped (used : list Z) (c x : Z) :
  (c <= x < skipUsed used c)%Z -> In x used.
Proof. intros H. apply has_In. exact (skipUsedFrom_skipped _ _ _ _ H). Qed.

(** ** Arrays: [slice] and the swap of two neighbours *)

Lemma skipn_prefix {A : Type} (pre l : list A) (i : nat) :
  length pre = i -> skipn i (pre ++ l) = l.
Proof.
  intros <-. induction pre as [|a pre IH]; simpl; [reflexivity | exact IH].
Qed.

Lemma swapAt_cons {A : Type} (a : A) (l : list A) (i j : nat) :
  swapAt (a :: l) (S i) (S j) = a :: swapAt l i j.
Proof.
  unfold swapAt. simpl.
  destruct (nth_error l i); [|reflexivity].
  destruct (nth_error l j); reflexivity.
Qed.

Lemma swapAt_neighbours {A : Type} (pre : list A) (x y : A) (tl : list A) :
  swapAt (pre ++ x :: y :: tl) (length pre) (S (length pre)) = pre ++ y :: x :: tl.
Proof.
  induction pre as [|a pre IH]; simpl; [reflexivity|].
  rewrite swapAt_cons, IH. reflexivity.
Qed.

Lemma split_at {A : Type} (l : list A) (i : nat) :
  l = firstn i l ++ skipn i l /\ (i <= length l -> length (firstn i l) = i).
Proof.
  split; [symmetry; apply firstn_skipn|]. intros H. apply firstn_length_le. exact H.
Qed.

Section GroupOfFour.
Context {A : Type} (pre : list A) (i : nat) (g0 g1 g2 g3 : A).
Hypothesis pre_length : length pre = i.

Lemma slice_group (rest : list A) :
  slice i (i + 4) (pre ++ g0 :: g1 :: g2 :: g3 :: rest) = [g0; g1; g2; g3].
Proof.
  unfold slice. rewrite skipn_prefix by exact pre_length.
  replace (i + 4 - i) with 4 by lia. reflexivity.
Qed.

Lemma skipn_group (rest : list A) :
  skipn (i + 4) (pre ++ g0 :: g1 :: g2 :: g3 :: rest) = rest.
Proof.
  change (pre ++ g0 :: g1 :: g2 :: g3 :: rest)
    with (pre ++ [g0; g1; g2; g3] ++ rest).
  rewrite app_assoc. apply skipn_prefix.
  rewrite length_app. simpl. lia.
Qed.

Lemma swapAt_fourth (g4 : A) (later : list A) :
  swapAt (pre ++ g0 :: g1 :: g2 :: g3 :: g4 :: later) (i + 3) (i + 4)
  = pre ++ g0 :: g1 :: g2 :: g4 :: g3 :: later.
Proof.
  change (pre ++ g0 :: g1 :: g2 :: g3 :: g4 :: later)
    with (pre ++ [g0; g1; g2] ++ g3 :: g4 :: later).
  rewrite app_assoc.
  replace (i + 3) with (length (pre ++ [g0; g1; g2]))
    by (rewrite length_app; simpl; lia).
  replace (i + 4) with (S (length (pre ++ [g0; g1; g2])))
    by (rewrite length_app; simpl; lia).
  rewrite swapAt_neighbours, <- app_assoc. reflexivity.
Qed.
End GroupOfFour.

(** ** The loop of the source walks the line in groups of four

    The [for] loop, with its index, its in-place swap and its [slice], does
    what [spec_walk] does on the part of the array that starts at [i]. *)
Lemma matchLoop_walk (rt : Runtime) (sid : string) (avail : Z) (used : list Z) :
  forall (fuel i : nat) (players : list User) (c : Z) (created : list Match) (db : Db),
    length players <= i + fuel ->
    matchLoop rt sid avail used fuel i players c created db
    = (let '(db', ms) :=
         spec_walk rt sid used (Z.to_nat (avail - Z.of_nat (length created)))
                   (length created) (skipn i players) c db in
       (db', created ++ ms)).
Proof.
  induction fuel as [|fuel IH]; intros i players c created db Hfuel.
  - rewrite skipn_all2 by lia. simpl.
    destruct (Z.to_nat _); simpl; rewrite app_nil_r; reflexivity.
  - cbn [matchLoop].
    destruct (split_at players i) as [Hsplit Hpre].
    pose proof (length_skipn i players) as Hlen.
    destruct (i + 3 <? length players) eqn:E1.
    2:{ apply Nat.ltb_ge in E1. simpl.
        destruct (Z.to_nat _); [simpl; rewrite app_nil_r; reflexivity|].
        destruct (skipn i players) as [|g0 [|g1 [|g2 [|g3 next]]]];
          simpl in Hlen; try lia; simpl; rewrite app_nil_r; reflexivity. }
    apply Nat.ltb_lt in E1.
    destruct (Z.of_nat (length created) <? avail)%Z eqn:E2.
    2:{ apply Z.ltb_ge in E2. simpl.
        replace (Z.to_nat (avail - Z.of_nat (length created))) with 0 by lia.
        simpl. rewrite app_nil_r. reflexivity. }
    apply Z.ltb_lt in E2. cbn [andb].
    replace (Z.to_nat (avail - Z.of_nat (length created)))
      with (S (Z.to_nat (avail - Z.of_nat (length (created ++ [])) - 1)))
      by (rewrite app_nil_r; lia).
    rewrite app_nil_r.
    specialize (Hpre ltac:(lia)).
    destruct (skipn i players) as [|g0 [|g1 [|g2 [|g3 next]]]] eqn:Hline;
      simpl in Hlen; try lia.
    assert (forall m : Match,
              Z.to_nat (avail - Z.of_nat (length (created ++ [m])))
              = Z.to_nat (avail - Z.of_nat (length created) - 1)) as Hav
      by (intros m; rewrite length_app; simpl; lia).
    assert (forall m : Match, length (created ++ [m]) = S (length created)) as Hk
      by (intros m; rewrite length_app; simpl; lia).
    cbn [spec_walk].
    assert (slice i (i + 4) players = [g0; g1; g2; g3]) as Hslice
      by (rewrite Hsplit; apply slice_group; exact Hpre).
    assert (skipn (i + 4) players = next) as Hskip
      by (rewrite Hsplit; apply skipn_group; exact Hpre).
    destruct next as [|g4 later]; simpl in Hlen.
    + (* no fifth player *)
      replace (i + 4 <? length players) with false
        by (symmetry; apply Nat.ltb_ge; lia).
      rewrite andb_false_r, Hslice.
      unfold newMatch, playersOf. cbn [p1Id p2Id p3Id p4Id].
      rewrite IH by lia. rewrite Hskip, Hav, Hk.
      destruct (spec_walk _ _ _ _ _ _ _ _) as [db' ms].
      rewrite <- app_assoc. reflexivity.
    + replace (i + 4 <? length players) with true
        by (symmetry; apply Nat.ltb_lt; lia).
      rewrite andb_true_r.
      destruct (Qltb (Math_random rt (length created)) 0.2) eqn:Hdraw.
      * (* the fourth player changes place with the fifth *)
        assert (swapAt players (i + 3) (i + 4)
                = firstn i players ++ g0 :: g1 :: g2 :: g4 :: g3 :: later) as Hswap
          by (rewrite Hsplit at 1; apply swapAt_fourth; exact Hpre).
        rewrite Hswap, (slice_group _ _ _ _ _ _ Hpre).
        unfold newMatch, playersOf. cbn [p1Id p2Id p3Id p4Id].
        rewrite IH by (rewrite length_app; simpl; rewrite Hpre; lia).
        rewrite (skipn_group _ _ _ _ _ _ Hpre), Hav, Hk.
        destruct (spec_walk _ _ _ _ _ _ _ _) as [db' ms].
        rewrite <- app_assoc. reflexivity.
      * rewrite Hslice.
        unfold newMatch, playersOf. cbn [p1Id p2Id p3Id p4Id].
        rewrite IH by lia. rewrite Hskip, Hav, Hk.
        destruct (spec_walk _ _ _ _ _ _ _ _) as [db' ms].
        rewrite <- app_assoc. reflexivity.
Qed.

(** The loop leaves by its condition: more fuel changes nothing. *)
Lemma matchLoop_fuel (rt : Runtime) (sid : string) (avail : Z) (used : list Z)
    (fuel fuel' i : nat) (players : list User) (c : Z) (created : list Match)
    (db : Db) :
  length players <= i + fuel -> length players <= i + fuel' ->
  matchLoop rt sid avail used fuel i players c created db
  = matchLoop rt sid avail used fuel' i players c created db.
Proof.
  intros H H'. rewrite !matchLoop_walk by assumption. reflexivity.
Qed.

(** [generateUpcomingMatches] refines the six steps of [spec_generate]. *)
Lemma generate_refines_spec (rt : Runtime) (db : Db) (sid : string) :
  generateUpcomingMatches rt db sid = spec_generate rt db sid.
Proof.
  unfold generateUpcomingMatches, spec_generate.
  destruct (findSession db sid) as [session|]; [|reflexivity].
  set (avail := Z.max 0 (courts session - Z.of_nat (length (liveMatches db sid)))).
  destruct (avail <=? 0)%Z eqn:E.
  - apply Z.leb_le in E. replace (Z.to_nat avail) with 0 by lia. reflexivity.
  - apply Z.leb_gt in E.
    destruct (Z.to_nat avail) as [|a] eqn:Ea; [lia|].
    destruct (includeUsers db (findQueue db sid)) as [queued|]; [|reflexivity].
    rewrite matchLoop_walk by (simpl; lia).
    simpl length. simpl skipn. rewrite Z.sub_0_r, Ea.
    destruct (spec_walk _ _ _ _ _ _ _ _) as [db' ms]. reflexivity.
Qed.

(** ** What a walk leaves in the store *)

Lemma keptEntry_app (sid : string) (ids1 ids2 : list string) (e : WaitingQueueEntry) :
  keptEntry sid (ids1 ++ ids2) e = keptEntry sid ids1 e && keptEntry sid ids2 e.
Proof.
  unfold keptEntry. rewrite existsb_app.
  destruct (String.eqb (q_sessionId e) sid);
    destruct (existsb (String.eqb (q_userId e)) ids1);
    destruct (existsb (String.eqb (q_userId e)) ids2); reflexivity.
Qed.

Lemma filter_filter {A : Type} (p q : A -> bool) (l : list A) :
  filter q (filter p l) = filter (fun x => p x && q x) l.
Proof.
  induction l as [|x t IH]; simpl; [reflexivity|].
  destruct (p x); simpl; [destruct (q x)|]; rewrite IH; reflexivity.
Qed.

Lemma spec_walk_store (rt : Runtime) (sid : string) (used : list Z) :
  forall (available k : nat) (line : list User) (c : Z) (db db' : Db) (ms : list Match),
    spec_walk rt sid used available k line c db = (db', ms) ->
    users db' = users db /\ sessions db' = sessions db
    /\ ratingHistory db' = ratingHistory db
    /\ matches db' = matches db ++ ms
    /\ waitingQueue db'
       = filter (keptEntry sid (flat_map playersOf ms)) (waitingQueue db)
    /\ Forall (fun m => status m = SCHEDULED /\ m_sessionId m = sid) ms.
Proof.
  induction available as [|a IH]; intros k line c db db' ms H.
  - simpl in H. injection H as <- <-. simpl. rewrite app_nil_r.
    repeat split; try constructor.
    symmetry. apply forallb_filter_id. apply forallb_forall. intros e _.
    unfold keptEntry. simpl. rewrite andb_false_r. reflexivity.
  - destruct line as [|g0 [|g1 [|g2 [|g3 next]]]];
      try (simpl in H; injection H as <- <-; simpl; rewrite app_nil_r;
           repeat split; try constructor;
           symmetry; apply forallb_filter_id; apply forallb_forall; intros e _;
           unfold keptEntry; simpl; rewrite andb_false_r; reflexivity).
    cbn [spec_walk] in H.
    destruct (match next with
              | [] => (g3, [])
              | g4 :: later =>
                  if Qltb (Math_random rt k) 0.2 then (g4, g3 :: later) else (g3, next)
              end) as [fourth next'].
    destruct (spec_walk rt sid used a (S k) next' _ _) as [db1 ms1] eqn:Hrec.
    injection H as <- <-.
    apply IH in Hrec. destruct Hrec as (Hu & Hs & Hh & Hm & Hq & Hall).
    simpl in Hu, Hs, Hh, Hm, Hq.
    repeat split; try assumption.
    + rewrite Hm, <- app_assoc. reflexivity.
    + rewrite Hq, filter_filter. cbn [flat_map].
      apply filter_ext. intros e. symmetry. apply keptEntry_app.
    + constructor; [split; reflexivity | exact Hall].
Qed.

Lemma spec_walk_nothing (rt : Runtime) (sid : string) (used : list Z)
    (available k : nat) (line : list User) (c : Z) (db : Db) :
  available = 0 \/ length line < 4 ->
  spec_walk rt sid used available k line c db = (db, []).
Proof.
  intros [-> | Hlen]; [reflexivity|].
  destruct available; [reflexivity|].
  destruct line as [|g0 [|g1 [|g2 [|g3 next]]]]; simpl in Hlen; try lia; reflexivity.
Qed.


(** ** Courts given out by a walk *)

Lemma scanState_lowestFree (used occ : list Z) (c : Z) :
  scanState used occ c -> lowestFree occ c.
Proof.
  intros (H1 & Hfree & Hocc & _ & Hlow). repeat split; try assumption.
  intros Hin. destruct (Hocc c Hin) as [Hu | Hlt]; [|lia].
  apply has_In in Hu. congruence.
Qed.

Lemma scanState_init (used : list Z) : scanState used used (skipUsed used 1).
Proof.
  pose proof (skipUsed_ge used 1).
  repeat split; try assumption.
  - apply skipUsed_free.
  - intros x Hx. left. exact Hx.
  - intros x Hx. exact Hx.
  - intros x Hx. apply (skipUsed_skipped used 1). exact Hx.
Qed.

Lemma scanState_next (used occ : list Z) (c : Z) :
  scanState used occ c -> scanState used (occ ++ [c]) (skipUsed used (c + 1)).
Proof.
  intros (H1 & Hfree & Hocc & Hused & Hlow).
  pose proof (skipUsed_ge used (c + 1)) as Hge.
  repeat split.
  - lia.
  - apply skipUsed_free.
  - intros x Hx. apply in_app_or in Hx. destruct Hx as [Hx | [<- | []]].
    + destruct (Hocc x Hx); [left; assumption | right; lia].
    + right. lia.
  - intros x Hx. apply in_or_app. left. apply Hused. exact Hx.
  - intros x Hx. apply in_or_app.
    destruct (Z_lt_ge_dec x c) as [Hlt | Hgec]; [left; apply Hlow; lia|].
    destruct (Z.eq_dec x c) as [-> | Hne]; [right; left; reflexivity|].
    left. apply Hused. apply (skipUsed_skipped used (c + 1)). lia.
Qed.

Lemma spec_walk_courts (rt : Runtime) (sid : string) (used : list Z) :
  forall (available k : nat) (line : list User) (c : Z) (db : Db) (occ : list Z),
    scanState used occ c ->
    let ms := snd (spec_walk rt sid used available k line c db) in
    (NoDup occ -> NoDup (occ ++ map court ms))
    /\ forall pre m post, ms = pre ++ m :: post ->
                          lowestFree (occ ++ map court pre) (court m).
Proof.
  induction available as [|a IH]; intros k line c db occ Hscan.
  - simpl. rewrite app_nil_r. split; [tauto|].
    intros [|x pre] m post H; discriminate H.
  - destruct line as [|g0 [|g1 [|g2 [|g3 next]]]];
      try (simpl; rewrite app_nil_r; split; [tauto|];
           intros [|x pre] m post H; discriminate H).
    cbn [spec_walk].
    destruct (match next with
              | [] => (g3, [])
              | g4 :: later =>
                  if Qltb (Math_random rt k) 0.2 then (g4, g3 :: later) else (g3, next)
              end) as [fourth next'].
    match goal with
    | |- context [spec_walk rt sid used a (S k) next' ?c' ?d] =>
        specialize (IH (S k) next' c' d (occ ++ [c]) (scanState_next _ _ _ Hscan))
    end.
    destruct (spec_walk rt sid used a (S k) next' _ _) as [db1 ms1].
    pose proof (scanState_lowestFree _ _ _ Hscan) as (_ & Hfresh & _).
    destruct IH as [IHnd IHlow]. cbn [snd] in *. simpl map.
    split.
    + intros Hnd.
      assert (NoDup (occ ++ [c])) as Hnd'.
      { apply NoDup_app; [exact Hnd | repeat constructor; intros [] |].
        intros x Hx [<- | []]. exact (Hfresh Hx). }
      specialize (IHnd Hnd'). rewrite <- app_assoc in IHnd. exact IHnd.
    + intros [|x pre] m post Heq; simpl in Heq; injection Heq as <- Heq.
      * simpl. rewrite app_nil_r. exact (scanState_lowestFree _ _ _ Hscan).
      * specialize (IHlow pre m post Heq).
        simpl. rewrite <- app_assoc in IHlow. exact IHlow.
Qed.

(** ** The live matches of a session after the requests *)

Lemma liveMatches_app (db : Db) (ms : list Match) (sid sid' : string) :
  Forall (fun m => status m = SCHEDULED /\ m_sessionId m = sid) ms ->
  filter (fun m => String.eqb (m_sessionId m) sid' && isLive (status m))
         (matches db ++ ms)
  = liveMatches db sid' ++ (if String.eqb sid sid' then ms else []).
Proof.
  intros Hall. unfold liveMatches. rewrite filter_app. f_equal.
  induction Hall as [|m t [Hst Hsid] _ IH]; simpl.
  - destruct (String.eqb sid sid'); reflexivity.
  - rewrite Hst, Hsid, IH. simpl. rewrite andb_true_r.
    destruct (String.eqb sid sid'); reflexivity.
Qed.
Lemma courtsUnique_ext (db db' : Db) :
  matches db' = matches db -> courtsUnique db -> courtsUnique db'.
Proof.
  intros Hm H sid. specialize (H sid). unfold liveMatches in *.
  rewrite Hm. exact H.
Qed.

(** Finishing takes a row out of the live matches, if it was there. *)
Lemma courtsUnique_finished (db : Db) (id : string) (w t : Z) :
  courtsUnique db -> courtsUnique (updateMatch id (with_finished w t) db).
Proof.
  intros H sid. specialize (H sid). unfold liveMatches, updateMatch in *. simpl.
  induction (matches db) as [|x l IH]; simpl in *; [exact H|].
  assert (NoDup (map court
            (filter (fun m => String.eqb (m_sessionId m) sid && isLive (status m)) l)))
    as Hl.
  { destruct (String.eqb (m_sessionId x) sid && isLive (status x));
      [inversion H; assumption | exact H]. }
  destruct (String.eqb (matchId x) id); simpl.
  - rewrite andb_false_r. exact Hl.
  - destruct (String.eqb (m_sessionId x) sid && isLive (status x)); simpl.
    + inversion H as [|c cs Hnin Hnd]; subst. constructor; [|apply IH; exact Hnd].
      intros Hin. apply Hnin. clear -Hin.
      induction l as [|y l IHl]; simpl in *; [exact Hin|].
      destruct (String.eqb (matchId y) id); simpl in Hin.
      * rewrite andb_false_r in Hin.
        destruct (String.eqb (m_sessionId y) sid && isLive (status y));
          [right|]; exact Hin.
      * destruct (String.eqb (m_sessionId y) sid && isLive (status y)); simpl in *;
          [destruct Hin as [Hin|Hin]; [left; exact Hin | right; exact (IHl Hin)]
          | exact (IHl Hin)].
    + apply IH. exact H.
Qed.

(** Starting a match that is SCHEDULED or ONGOING leaves the live matches
    of every session on the courts they had. *)
Lemma liveCourts_started (db : Db) (id : string) (t : Z) (m : Match) (sid : string) :
  findMatch db id = Some m -> status m <> FINISHED ->
  map court (liveMatches (updateMatch id (with_started t) db) sid)
  = map court (liveMatches db sid).
Proof.
  unfold findMatch, liveMatches, updateMatch. simpl.
  induction (matches db) as [|x l IH]; simpl; [discriminate|].
  destruct (String.eqb (matchId x) id); simpl.
  - intros Hx Hst. injection Hx as ->.
    destruct (String.eqb (m_sessionId m) sid); simpl; [|reflexivity].
    destruct (status m); simpl; try reflexivity. congruence.
  - intros Hx Hst.
    destruct (String.eqb (m_sessionId x) sid && isLive (status x)); simpl;
      rewrite (IH Hx Hst); reflexivity.
Qed.

Lemma generate_keeps_courts_unique (rt : Runtime) (db : Db) (sid : string) :
  courtsUnique db -> courtsUnique (fst (generateUpcomingMatches rt db sid)).
Proof.
  intros H. rewrite generate_refines_spec. unfold spec_generate.
  destruct (findSession db sid) as [session|]; [|exact H].
  destruct (Z.to_nat _) as [|a]; [exact H|].
  destruct (includeUsers db (findQueue db sid)) as [queued|]; [|exact H].
  pose proof (spec_walk_courts rt sid (map court (liveMatches db sid)) (S a) 0
                (sortBy rating_leb queued)
                (skipUsed (map court (liveMatches db sid)) 1) db _
                (scanState_init _)) as [Hnd _].
  destruct (spec_walk _ _ _ _ _ _ _ _) as [db' ms] eqn:Hwalk.
  apply spec_walk_store in Hwalk. destruct Hwalk as (_ & _ & _ & Hm & _ & Hall).
  simpl in *. intros sid'. unfold liveMatches at 1. rewrite Hm.
  rewrite (liveMatches_app db ms sid sid' Hall).
  destruct (String.eqb sid sid') eqn:E.
  - apply String.eqb_eq in E. subst sid'. rewrite map_app. apply Hnd. apply H.
  - rewrite app_nil_r. apply H.
Qed.

(** Every match [generateUpcomingMatches] returns sits on the lowest court
    that was free when it was created: free of the live matches found in
    the session and of the matches created before it in the same call. *)
Lemma generate_lowest_court (rt : Runtime) (db : Db) (sid : string)
    (pre post : list Match) (m : Match) :
  snd (generateUpcomingMatches rt db sid) = Returned (pre ++ m :: post) ->
  lowestFree (map court (liveMatches db sid) ++ map court pre) (court m).
Proof.
  rewrite generate_refines_spec. unfold spec_generate.
  destruct (findSession db sid) as [session|]; [|discriminate].
  destruct (Z.to_nat _) as [|a];
    [simpl; intros H; injection H as H; destruct pre; discriminate H|].
  destruct (includeUsers db (findQueue db sid)) as [queued|]; [|discriminate].
  pose proof (spec_walk_courts rt sid (map court (liveMatches db sid)) (S a) 0
                (sortBy rating_leb queued)
                (skipUsed (map court (liveMatches db sid)) 1) db _
                (scanState_init _)) as [_ Hlow].
  destruct (spec_walk _ _ _ _ _ _ _ _) as [db' ms].
  simpl in *. intros H. injection H as ->. apply (Hlow pre m post eq_refl).
Qed.

Lemma finishMatch_keeps_courts_unique (rt : Runtime) (db : Db) (id : string)
    (body : JsValue) :
  courtsUnique db -> courtsUnique (fst (finishMatch rt db id body)).
Proof.
  intros H. unfold finishMatch.
  destruct (parseWinnerTeam body) as [w|]; [|exact H].
  destruct (findMatch db id) as [m|]; [|exact H].
  destruct (findUser db (p1Id m)) as [p1|]; [|exact H].
  destruct (findUser db (p2Id m)) as [p2|]; [|exact H].
  destruct (findUser db (p3Id m)) as [p3|]; [|exact H].
  destruct (findUser db (p4Id m)) as [p4|]; [|exact H].
  cbv zeta.
  generalize (asInt w). intros z.
  match goal with
  | |- context [updateMatch id (with_finished z (Date_now rt)) ?d] =>
      set (db2 := d)
  end.
  assert (courtsUnique db2) as H2 by (apply (courtsUnique_ext db); [reflexivity | exact H]).
  pose proof (generate_keeps_courts_unique rt
                (updateMatch id (with_finished z (Date_now rt)) db2) (m_sessionId m)
                (courtsUnique_finished db2 id z (Date_now rt) H2)) as H4.
  destruct (generateUpcomingMatches rt _ (m_sessionId m)) as [db4 [created|msg]];
    exact H4.
Qed.

(** ** Court allocation *)

(** C5 as stated fails for [startMatch].  The script is a run of the
    engine: after it, the first match ("g0") is FINISHED and the match that
    took its place ("h0") is SCHEDULED on the same court 1.  The courts of
    the live matches are unique; [startMatch] on "g0" sets it back to
    ONGOING and two live matches of the session share court 1. *)
Lemma startMatch_finished_shares_court :
  let db := run ex_script ex_db8 in
  map (fun m => (matchId m, court m, status m)) (matches db)
  = [("g0", 1%Z, FINISHED); ("h0", 1%Z, SCHEDULED)]
  /\ courtsUnique db
  /\ ~ courtsUnique (handle (ex_rt "k") db (StartMatch "g0")).
Proof.
  intros db. split; [vm_compute; reflexivity|]. split.
  - intros sid. unfold liveMatches.
    assert (matches db
            = [mkMatch "g0" "s1" 1 FINISHED None (Some 1700000000000%Z)
                       "u1" "u2" "u3" "u4" (Some 1%Z);
               mkMatch "h0" "s1" 1 SCHEDULED None None "u5" "u6" "u7" "u8" None])
      as -> by (vm_compute; reflexivity).
    cbn -[String.eqb].
    destruct (String.eqb "s1" sid); cbn; repeat constructor; cbn; tauto.
  - intros H. specialize (H "s1").
    assert (map court (liveMatches (handle (ex_rt "k") db (StartMatch "g0")) "s1")
            = [1%Z; 1%Z]) as E by (vm_compute; reflexivity).
    rewrite E in H. inversion H as [|x l Hnin _]; subst. apply Hnin. left. reflexivity.
Qed.

(** C5 (amended).  The courts of the SCHEDULED and ONGOING matches of every
    session stay unique under [joinQueue], [generateMatches], [finishMatch],
    and under [startMatch] on a match that is not FINISHED; and
    [generateMatches] puts each match it creates on the lowest court, from
    1, that no live match of the session occupies, the matches created
    before it in the call included (a FINISHED match occupies none). *)
Theorem handle_keeps_courts_unique (rt : Runtime) (db : Db) (r : Request) :
  (courtsUnique db -> notRestart db r -> courtsUnique (handle rt db r))
  /\ (forall sid pre m post,
        snd (generateMatches rt db sid) = Json (pre ++ m :: post) ->
        lowestFree (map court (liveMatches db sid) ++ map court pre) (court m)).
Proof.
  split.
  - intros H Hr. destruct r as [sid uid | sid | id | id body]; simpl.
    + apply (courtsUnique_ext db); [|exact H].
      unfold joinQueue.
      destruct (findSession db sid) as [s|]; [|reflexivity].
      destruct (negb (isActive s)); [reflexivity|].
      destruct (findEntry db sid uid); [reflexivity|].
      destruct (findUser db uid); reflexivity.
    + unfold generateMatches.
      pose proof (generate_keeps_courts_unique rt db sid H) as H'.
      destruct (generateUpcomingMatches rt db sid) as [db' [created|msg]]; exact H'.
    + unfold startMatch. destruct (findMatch db id) as [m|] eqn:Hm; [|exact H].
      simpl. intros sid.
      rewrite (liveCourts_started db id (Date_now rt) m sid Hm (Hr m Hm)). apply H.
    + apply finishMatch_keeps_courts_unique. exact H.
  - intros sid pre m post Hgen. apply (generate_lowest_court rt db sid pre post m).
    unfold generateMatches in Hgen.
    destruct (generateUpcomingMatches rt db sid) as [db' [created|msg]];
      simpl in *; [congruence | discriminate].
Qed.

(** ** The sort *)

Section SortFacts.
Context {A : Type} (leb : A -> A -> bool).

Lemma insertBy_perm (x : A) (l : list A) : Permutation (x :: l) (insertBy leb x l).
Proof.
  induction l as [|y t IH]; simpl; [reflexivity|].
  destruct (leb x y); [reflexivity|].
  rewrite perm_swap. apply perm_skip. exact IH.
Qed.

Lemma sortBy_perm (l : list A) : Permutation l (sortBy leb l).
Proof.
  induction l as [|x t IH]; simpl; [constructor|].
  rewrite <- insertBy_perm. apply perm_skip. exact IH.
Qed.

Lemma sortBy_length (l : list A) : length (sortBy leb l) = length l.
Proof. symmetry. apply Permutation_length. apply sortBy_perm. Qed.

Hypothesis leb_total : forall x y, leb x y = false -> leb y x = true.
Hypothesis leb_trans : forall x y z, leb x y = true -> leb y z = true -> leb x z = true.

Lemma insertBy_sorted (x : A) (l : list A) :
  StronglySorted (fun a b => leb a b = true) l ->
  StronglySorted (fun a b => leb a b = true) (insertBy leb x l).
Proof.
  induction l as [|y t IH]; intros Hs; simpl.
  - constructor; constructor.
  - inversion Hs as [|y' t' Ht Hy]; subst.
    destruct (leb x y) eqn:E.
    + constructor; [exact Hs|]. constructor; [exact E|].
      rewrite Forall_forall in *. intros z Hz. exact (leb_trans _ _ _ E (Hy z Hz)).
    + constructor; [exact (IH Ht)|].
      rewrite Forall_forall in *. intros z Hz.
      apply (Permutation_in _ (Permutation_sym (insertBy_perm x t))) in Hz.
      destruct Hz as [<- | Hz]; [exact (leb_total _ _ E) | exact (Hy z Hz)].
Qed.

Lemma sortBy_sorted (l : list A) :
  StronglySorted (fun a b => leb a b = true) (sortBy leb l).
Proof.
  induction l as [|x t IH]; simpl; [constructor|].
  apply insertBy_sorted. exact IH.
Qed.
End SortFacts.

Lemma rating_leb_le (a b : User) : rating_leb a b = true <-> (rating a <= rating b)%Q.
Proof.
  unfold rating_leb. rewrite Qle_bool_iff. split; intros H.
  - apply Qle_minus_iff in H. apply Qle_minus_iff.
    setoid_replace (rating b + - rating a)%Q with (0 + - (rating a - rating b))%Q by ring.
    exact H.
  - apply Qle_minus_iff in H. apply Qle_minus_iff.
    setoid_replace (0 + - (rating a - rating b))%Q with (rating b + - rating a)%Q by ring.
    exact H.
Qed.

(** The line the scheduler walks holds the queued players, by rating
    ascending. *)
Lemma players_sorted (queued : list User) :
  Permutation queued (sortBy rating_leb queued)
  /\ StronglySorted (fun a b => (rating a <= rating b)%Q) (sortBy rating_leb queued).
Proof.
  split; [apply sortBy_perm|].
  assert (StronglySorted (fun a b => rating_leb a b = true) (sortBy rating_leb queued))
    as H.
  { apply sortBy_sorted.
    - intros x y Hxy. apply rating_leb_le.
      destruct (Qlt_le_dec (rating y) (rating x)) as [Hlt | Hle].
      + apply Qlt_le_weak. exact Hlt.
      + apply rating_leb_le in Hle. congruence.
    - intros x y z Hxy Hyz. apply rating_leb_le. apply rating_leb_le in Hxy, Hyz.
      exact (Qle_trans _ _ _ Hxy Hyz). }
  induction H as [|x l Hs IH Hx]; constructor; [exact IH|].
  rewrite Forall_forall in *. intros y Hy. apply rating_leb_le. exact (Hx y Hy).
Qed.

(** ** What [generateUpcomingMatches] leaves in the store *)

Lemma generate_store (rt : Runtime) (db db' : Db) (sid : string)
    (out : Outcome (list Match)) :
  generateUpcomingMatches rt db sid = (db', out) ->
  match out with
  | Returned created =>
      users db' = users db /\ sessions db' = sessions db
      /\ ratingHistory db' = ratingHistory db
      /\ matches db' = matches db ++ created
      /\ waitingQueue db'
         = filter (keptEntry sid (flat_map playersOf created)) (waitingQueue db)
      /\ Forall (fun m => status m = SCHEDULED /\ m_sessionId m = sid) created
  | Threw _ => db' = db
  end.
Proof.
  rewrite generate_refines_spec. unfold spec_generate.
  assert (forall d : Db, waitingQueue d = filter (keptEntry sid []) (waitingQueue d))
    as Hnone.
  { intros d. symmetry. apply forallb_filter_id. apply forallb_forall. intros e _.
    unfold keptEntry. simpl. rewrite andb_false_r. reflexivity. }
  destruct (findSession db sid) as [session|];
    [|intros H; injection H as <- <-; reflexivity].
  destruct (Z.to_nat _) as [|a].
  { intros H; injection H as <- <-. simpl. rewrite app_nil_r.
    repeat split; [apply Hnone | constructor]. }
  destruct (includeUsers db (findQueue db sid)) as [queued|];
    [|intros H; injection H as <- <-; reflexivity].
  destruct (spec_walk _ _ _ _ _ _ _ _) as [db1 ms] eqn:Hwalk.
  intros H; injection H as <- <-.
  exact (spec_walk_store _ _ _ _ _ _ _ _ _ _ Hwalk).
Qed.

(** ** Match generation *)

(** C6.  [generateUpcomingMatches] is the scheduler of the specification
    ([spec_generate]: the waiting players of the session sorted by rating,
    walked in consecutive groups of four, the fourth of a group changing
    place with the next player when the draw is below 0.2 and a fifth
    player exists, team 1 the first two and team 2 the last two of the
    group).  The line it walks is the queued players in ascending rating;
    every match it returns is SCHEDULED and appended to the table; and the
    queue it leaves is the queue it found without the entries of the
    session whose player is in a returned match. *)
Theorem generate_groups_of_four (rt : Runtime) (db : Db) (sid : string) :
  generateUpcomingMatches rt db sid = spec_generate rt db sid
  /\ (forall queued,
        includeUsers db (findQueue db sid) = Some queued ->
        Permutation queued (sortBy rating_leb queued)
        /\ StronglySorted (fun a b => (rating a <= rating b)%Q)
                          (sortBy rating_leb queued))
  /\ (forall db' created,
        generateUpcomingMatches rt db sid = (db', Returned created) ->
        Forall (fun m => status m = SCHEDULED) created
        /\ matches db' = matches db ++ created
        /\ waitingQueue db'
           = filter (keptEntry sid (flat_map playersOf created)) (waitingQueue db)).
Proof.
  split; [apply generate_refines_spec|]. split.
  - intros queued _. apply players_sorted.
  - intros db' created H. apply generate_store in H.
    destruct H as (_ & _ & _ & Hm & Hq & Hall). repeat split; try assumption.
    eapply Forall_impl; [|exact Hall]. intros m [Hs _]. exact Hs.
Qed.

Lemma includeUsers_length (db : Db) (q : list WaitingQueueEntry) (us : list User) :
  includeUsers db q = Some us -> length us = length q.
Proof.
  revert us. induction q as [|e t IH]; intros us; simpl.
  - intros H. injection H as <-. reflexivity.
  - destruct (findUser db (q_userId e)); [|discriminate].
    destruct (includeUsers db t) as [us'|]; [|discriminate].
    intros H. injection H as <-. simpl. rewrite (IH us' eq_refl). reflexivity.
Qed.

Lemma findQueue_length (db : Db) (sid : string) :
  length (findQueue db sid) = waitingCount db sid.
Proof. unfold findQueue, waitingCount. apply sortBy_length. Qed.

(** With its session found and the users of the queue resolved,
    [generateUpcomingMatches] returns. *)
Lemma generate_returns (rt : Runtime) (db : Db) (sid : string) :
  findSession db sid <> None ->
  includeUsers db (findQueue db sid) <> None ->
  exists created, snd (generateUpcomingMatches rt db sid) = Returned created.
Proof.
  intros Hs Hq. rewrite generate_refines_spec. unfold spec_generate.
  destruct (findSession db sid) as [session|]; [|congruence].
  destruct (Z.to_nat _) as [|a]; [eexists; reflexivity|].
  destruct (includeUsers db (findQueue db sid)) as [queued|]; [|congruence].
  destruct (spec_walk _ _ _ _ _ _ _ _) as [db' ms]. eexists; reflexivity.
Qed.

(** C7.  On an existing session [generateMatches] answers 200 with the
    empty list and leaves the store, so the queue, as it was when no court
    is available (max(0, capacity - live matches) = 0) or when fewer than
    four players wait (their user rows being there, which the foreign key
    of the queue guarantees). *)
Theorem generateMatches_nothing_to_do (rt : Runtime) (db : Db) (sid : string)
    (s : Session) :
  findSession db sid = Some s ->
  Z.max 0 (courts s - Z.of_nat (length (liveMatches db sid))) = 0%Z
  \/ (waitingCount db sid < 4 /\ includeUsers db (findQueue db sid) <> None) ->
  generateMatches rt db sid = (db, Json []).
Proof.
  intros Hs Hcase. unfold generateMatches.
  rewrite generate_refines_spec. unfold spec_generate. rewrite Hs.
  destruct Hcase as [-> | [Hfew Hfk]]; [reflexivity|].
  destruct (Z.to_nat _) as [|a]; [reflexivity|].
  destruct (includeUsers db (findQueue db sid)) as [queued|] eqn:Hq; [|congruence].
  rewrite spec_walk_nothing; [reflexivity|]. right.
  rewrite sortBy_length, (includeUsers_length _ _ _ Hq), findQueue_length. exact Hfew.
Qed.

Lemma generateMatches_nothing_to_do_witness :
  generateMatches (ex_rt "n") (ex_db SCHEDULED) "s1" = (ex_db SCHEDULED, Json [])
  /\ generateMatches (ex_rt "n") (run ex_script ex_db8) "s1"
     = (run ex_script ex_db8, Json []).
Proof.
  split.
  - apply (generateMatches_nothing_to_do (ex_rt "n") (ex_db SCHEDULED) "s1"
             (mkSession "s1" 5 true)); [reflexivity|].
    right. split; [vm_compute; lia | vm_compute; discriminate].
  - apply (generateMatches_nothing_to_do (ex_rt "n") (run ex_script ex_db8) "s1"
             (mkSession "s1" 1 true)); [vm_compute; reflexivity|].
    left. vm_compute. reflexivity.
Defined.

(** ** The active flag *)








(** ** Queue store *)

Lemma find_filter {A : Type} (p : A -> bool) (l : list A) :
  find p l = hd_error (filter p l).
Proof.
  induction l as [|x t IH]; simpl; [reflexivity|].
  destruct (p x); [reflexivity | exact IH].
Qed.

Lemma find_app {A : Type} (p : A -> bool) (l l' : list A) :
  find p (l ++ l') = match find p l with Some x => Some x | None => find p l' end.
Proof.
  induction l as [|x t IH]; simpl; [reflexivity|].
  destruct (p x); [reflexivity | exact IH].
Qed.

(** C8.  On an active session and for an existing player, [joinQueue]
    called twice answers 200 twice with the same entry, the second call
    leaves the store of the first as it is (whatever its clock), and the
    queue then holds exactly that one entry for the pair.  The store the
    first call starts from has at most one entry for the pair, which is the
    unique index of the table. *)
Theorem joinQueue_idempotent (rt1 rt2 : Runtime) (db : Db) (sid uid : string)
    (s : Session) (u : User) :
  findSession db sid = Some s -> isActive s = true ->
  findUser db uid = Some u ->
  length (entriesOf db sid uid) <= 1 ->
  exists e,
    snd (joinQueue rt1 db sid uid) = Json e
    /\ joinQueue rt2 (fst (joinQueue rt1 db sid uid)) sid uid
       = (fst (joinQueue rt1 db sid uid), Json e)
    /\ entriesOf (fst (joinQueue rt1 db sid uid)) sid uid = [e].
Proof.
  intros Hs Hact Hu Huniq.
  assert (forall rt d, sessions d = sessions db ->
            joinQueue rt d sid uid
            = match findEntry d sid uid with
              | Some entry => (d, Json entry)
              | None =>
                  match findUser d uid with
                  | None => (d, Rejected "Foreign key constraint failed")
                  | Some _ =>
                      (set_waitingQueue
                         (waitingQueue d ++
                          [mkEntry sid uid
                             (match maxPosition d sid with Some p => p | None => 0 end + 1)
                             (Date_now rt)]) d,
                       Json (mkEntry sid uid
                               (match maxPosition d sid with Some p => p | None => 0 end + 1)
                               (Date_now rt)))
                  end
              end) as Hjoin.
  { intros rt d Hd. unfold joinQueue, findSession. rewrite Hd.
    unfold findSession in Hs. rewrite Hs, Hact. reflexivity. }
  rewrite (Hjoin rt1 db eq_refl).
  destruct (findEntry db sid uid) as [e|] eqn:He.
  - exists e. cbn [fst snd]. rewrite (Hjoin rt2 db eq_refl), He.
    repeat split. unfold findEntry in He. rewrite find_filter in He.
    unfold entriesOf in *.
    destruct (filter _ (waitingQueue db)) as [|e' [|e'' t]]; simpl in *;
      [discriminate | congruence | lia].
  - rewrite Hu. cbn [fst snd].
    set (e := mkEntry sid uid _ (Date_now rt1)). exists e.
    assert (String.eqb (q_sessionId e) sid && String.eqb (q_userId e) uid = true) as Hkey
      by (simpl; rewrite !String.eqb_refl; reflexivity).
    split; [reflexivity|]. split.
    + match goal with
      | |- joinQueue rt2 ?d sid uid = _ => rewrite (Hjoin rt2 d eq_refl)
      end.
      unfold findEntry in *. cbn [waitingQueue set_waitingQueue findUser users].
      rewrite find_app, He. cbn [find]. rewrite Hkey. reflexivity.
    + unfold entriesOf. cbn [waitingQueue set_waitingQueue].
      rewrite filter_app. cbn [filter]. rewrite Hkey.
      unfold findEntry in He. rewrite find_filter in He.
      destruct (filter _ (waitingQueue db)); [reflexivity | discriminate].
Qed.

(** ** Finishing a match *)

Lemma findUser_updateUser (db : Db) (id x : string) (r : Q) :
  findUser (updateUser id r db) x
  = if String.eqb x id then option_map (with_rating r) (findUser db id)
    else findUser db x.
Proof.
  unfold findUser, updateUser. simpl.
  destruct (String.eqb x id) eqn:E.
  - apply String.eqb_eq in E. subst x.
    apply find_updateFirst_same. reflexivity.
  - apply String.eqb_neq in E. apply find_updateFirst_other.
    intros u Hu. apply String.eqb_eq in Hu. simpl.
    split; apply String.eqb_neq; congruence.
Qed.

Lemma findUser_updateUser_resolves (db : Db) (id x : string) (r : Q) :
  findUser db x <> None -> findUser (updateUser id r db) x <> None.
Proof.
  rewrite findUser_updateUser. destruct (String.eqb x id) eqn:E; [|tauto].
  apply String.eqb_eq in E. subst x.
  destruct (findUser db id); [discriminate | tauto].
Qed.

Lemma includeUsers_resolves (db db' : Db) (q : list WaitingQueueEntry) :
  (forall x, findUser db x <> None -> findUser db' x <> None) ->
  includeUsers db q <> None -> includeUsers db' q <> None.
Proof.
  intros Hres. induction q as [|e t IH]; simpl; [discriminate|].
  destruct (findUser db (q_userId e)) as [u|] eqn:Hu; [|tauto].
  destruct (includeUsers db t) as [us|]; [|tauto]. intros _.
  assert (findUser db' (q_userId e) <> None) as Hu' by (apply Hres; congruence).
  destruct (findUser db' (q_userId e)); [|tauto].
  destruct (includeUsers db' t); [discriminate | apply IH; discriminate].
Qed.

(** C3 as stated fails: [ex_db_finished] holds the match "m1", FINISHED,
    won by team 1.  [finishMatch] on it with [winnerTeam = 2] answers 200,
    rewrites the four ratings, appends four history rows and rewrites the
    match row, now won by team 2. *)
Lemma finishMatch_finished_counterexample :
  let rt := ex_rt "k" in
  let db := ex_db_finished in
  let out := finishMatch rt db "m1" (JsNumber 2) in
  option_map status (findMatch db "m1") = Some FINISHED
  /\ match snd out with
     | Json m' => status m' = FINISHED /\ winnerTeam m' = Some 2%Z
     | _ => False
     end
  /\ users (fst out) <> users db
  /\ length (ratingHistory (fst out)) = 4 + length (ratingHistory db)
  /\ option_map winnerTeam (findMatch db "m1") = Some (Some 1%Z)
  /\ option_map winnerTeam (findMatch (fst out) "m1") = Some (Some 2%Z).
Proof.
  repeat split; try reflexivity; vm_compute; discriminate.
Qed.

(** C3 (amended).  [finishMatch] looks at no status.  On a FINISHED match,
    with [winnerTeam] 1 or 2, it does what it does on any match: it answers
    200 with the match row rewritten (FINISHED, the winner, the end time)
    and stores that row; it appends one history row per player, the two of
    a team with the same change; and it rewrites each player's rating to
    the rating recorded in the player's row (the four players of a match
    being distinct).  The user rows of the match and of the queue, and the
    session row, are there, as the foreign keys guarantee. *)
Theorem finishMatch_on_finished_match (rt : Runtime) (db : Db) (id : string) (z : Z)
    (m : Match) (p1 p2 p3 p4 : User) :
  findMatch db id = Some m -> status m = FINISHED ->
  z = 1%Z \/ z = 2%Z ->
  findUser db (p1Id m) = Some p1 -> findUser db (p2Id m) = Some p2 ->
  findUser db (p3Id m) = Some p3 -> findUser db (p4Id m) = Some p4 ->
  findSession db (m_sessionId m) <> None ->
  includeUsers db (findQueue db (m_sessionId m)) <> None ->
  let out := finishMatch rt db id (JsNumber (inject_Z z)) in
  snd out = Json (with_finished z (Date_now rt) m)
  /\ findMatch (fst out) id = Some (with_finished z (Date_now rt) m)
  /\ exists c1 c2 : Q,
       ratingHistory (fst out)
       = ratingHistory db ++
         [mkHistory (p1Id m) c1 (rating p1 + c1) id;
          mkHistory (p2Id m) c1 (rating p2 + c1) id;
          mkHistory (p3Id m) c2 (rating p3 + c2) id;
          mkHistory (p4Id m) c2 (rating p4 + c2) id]
       /\ (NoDup (playersOf m) ->
           findUser (fst out) (p1Id m) = Some (mkUser (p1Id m) (rating p1 + c1))
           /\ findUser (fst out) (p2Id m) = Some (mkUser (p2Id m) (rating p2 + c1))
           /\ findUser (fst out) (p3Id m) = Some (mkUser (p3Id m) (rating p3 + c2))
           /\ findUser (fst out) (p4Id m) = Some (mkUser (p4Id m) (rating p4 + c2))).
Proof.
  intros Hm Hst Hz H1 H2 H3 H4 Hs Hq out. subst out. unfold finishMatch.
  assert (parseWinnerTeam (JsNumber (inject_Z z)) = Some (inject_Z z)) as Hparse
    by (destruct Hz as [-> | ->]; reflexivity).
  assert (asInt (inject_Z z) = z) as Hint
    by (destruct Hz as [-> | ->]; reflexivity).
  rewrite Hparse, Hm, H1, H2, H3, H4. cbv zeta. rewrite Hint.
  match goal with
  | |- context [mkHistory (p1Id m) ?c _ id] => set (c1 := c)
  end.
  match goal with
  | |- context [mkHistory (p3Id m) ?c _ id] => set (c2 := c)
  end.
  set (db1 := updateUser (p4Id m) (rating p4 + c2)
                (updateUser (p3Id m) (rating p3 + c2)
                   (updateUser (p2Id m) (rating p2 + c1)
                      (updateUser (p1Id m) (rating p1 + c1) db)))).
  match goal with
  | |- context [generateUpcomingMatches rt ?d _] => set (db3 := d)
  end.
  assert (includeUsers db3 (findQueue db3 (m_sessionId m)) <> None) as Hq3.
  { change (findQueue db3 (m_sessionId m)) with (findQueue db (m_sessionId m)).
    apply (includeUsers_resolves db); [|exact Hq]. intros x Hx.
    change (findUser db3 x) with (findUser db1 x). unfold db1.
    repeat apply findUser_updateUser_resolves. exact Hx. }
  destruct (generate_returns rt db3 (m_sessionId m) Hs Hq3) as [created Hret].
  destruct (generateUpcomingMatches rt db3 (m_sessionId m)) as [db4 res] eqn:Hgen.
  simpl in Hret. subst res. cbn [fst snd].
  apply generate_store in Hgen. destruct Hgen as (Hu & _ & Hh & Hms & _ & _).
  assert (findMatch db3 id = Some (with_finished z (Date_now rt) m)) as Hm3.
  { unfold db3, findMatch, updateMatch. simpl.
    rewrite find_updateFirst_same by reflexivity.
    unfold findMatch in Hm. rewrite Hm. reflexivity. }
  split; [reflexivity|]. split.
  { unfold findMatch in *. rewrite Hms, find_app, Hm3. reflexivity. }
  exists c1, c2. split; [rewrite Hh; reflexivity|].
  intros Hnd. unfold playersOf in Hnd.
  assert (forall x, findUser db4 x = findUser db1 x) as Hf
    by (intros x; unfold findUser; rewrite Hu; reflexivity).
  rewrite !Hf. unfold db1. rewrite !findUser_updateUser.
  pose proof (findUser_key _ _ _ H1) as K1. pose proof (findUser_key _ _ _ H2) as K2.
  pose proof (findUser_key _ _ _ H3) as K3. pose proof (findUser_key _ _ _ H4) as K4.
  inversion Hnd as [|a1 l1 N1 Hnd1]; subst.
  inversion Hnd1 as [|a2 l2 N2 Hnd2]; subst.
  inversion Hnd2 as [|a3 l3 N3 _]; subst.
  simpl in N1, N2, N3.
  rewrite !String.eqb_refl.
  repeat match goal with
         | |- context [String.eqb ?a ?b] =>
             replace (String.eqb a b) with false
               by (symmetry; apply String.eqb_neq; intuition congruence)
         end.
  rewrite H1, H2, H3, H4. unfold with_rating. simpl. rewrite K1, K2, K3, K4.
  repeat split.
Qed.

(** ** The theorems at concrete stores *)

Lemma finishMatch_on_finished_match_witness :
  match snd (finishMatch (ex_rt "k") ex_db_finished "m1" (JsNumber (inject_Z 2))) with
  | Json m' => status m' = FINISHED /\ winnerTeam m' = Some 2%Z
  | _ => False
  end.
Proof.
  enough (exists m, snd (finishMatch (ex_rt "k") ex_db_finished "m1"
                           (JsNumber (inject_Z 2)))
                    = Json (with_finished 2 (Date_now (ex_rt "k")) m)) as [m Hm]
    by (rewrite Hm; split; reflexivity).
  eexists. eapply proj1.
  eapply (finishMatch_on_finished_match (ex_rt "k") ex_db_finished "m1" 2).
  - vm_compute. reflexivity.
  - reflexivity.
  - right. reflexivity.
  - vm_compute. reflexivity.
  - vm_compute. reflexivity.
  - vm_compute. reflexivity.
  - vm_compute. reflexivity.
  - vm_compute. discriminate.
  - vm_compute. discriminate.
Defined.

Lemma handle_keeps_courts_unique_witness :
  courtsUnique (handle (ex_rt "k") (ex_db SCHEDULED) (StartMatch "m1"))
  /\ lowestFree [] 1.
Proof.
  split.
  - apply (proj1 (handle_keeps_courts_unique (ex_rt "k") (ex_db SCHEDULED)
                    (StartMatch "m1"))).
    + intros sid. unfold liveMatches. cbn -[String.eqb].
      destruct (String.eqb "s1" sid); cbn; repeat constructor; cbn; tauto.
    + intros m Hm. vm_compute in Hm. injection Hm as <-. discriminate.
  - apply (proj2 (handle_keeps_courts_unique (ex_rt "g") ex_db8_queued
                    (GenerateMatches "s1"))
             "s1" []
             (mkMatch "g0" "s1" 1 SCHEDULED None None "u1" "u2" "u3" "u4" None) []).
    vm_compute. reflexivity.
Defined.

Lemma generate_groups_of_four_witness :
  let out := generateUpcomingMatches (ex_rt "g") ex_db8_queued "s1" in
  snd out
  = Returned [mkMatch "g0" "s1" 1 SCHEDULED None None "u1" "u2" "u3" "u4" None]
  /\ map q_userId (waitingQueue (fst out)) = ["u5"; "u6"; "u7"; "u8"]
  /\ StronglySorted (fun a b => (rating a <= rating b)%Q)
                    (sortBy rating_leb (users ex_db8)).
Proof.
  destruct (generate_groups_of_four (ex_rt "g") ex_db8_queued "s1")
    as (Hspec & Hsorted & _).
  cbv zeta. rewrite Hspec. split; [vm_compute; reflexivity|].
  split; [vm_compute; reflexivity|].
  apply (Hsorted (users ex_db8)). vm_compute. reflexivity.
Defined.

(** The same call with every draw below 0.2: the fourth player of the
    group (u4) changes place with the fifth (u5). *)
Example generate_swaps_fourth_and_fifth :
  let out := generateUpcomingMatches (ex_rt_swap "g") ex_db8_queued "s1" in
  snd out
  = Returned [mkMatch "g0" "s1" 1 SCHEDULED None None "u1" "u2" "u3" "u5" None]
  /\ map q_userId (waitingQueue (fst out)) = ["u4"; "u6"; "u7"; "u8"].
Proof. split; vm_compute; reflexivity. Qed.

Lemma joinQueue_idempotent_witness :
  exists e,
    snd (joinQueue (ex_rt "j") ex_db8 "s1" "u1") = Json e
    /\ joinQueue (ex_rt "k") (fst (joinQueue (ex_rt "j") ex_db8 "s1" "u1")) "s1" "u1"
       = (fst (joinQueue (ex_rt "j") ex_db8 "s1" "u1"), Json e)
    /\ entriesOf (fst (joinQueue (ex_rt "j") ex_db8 "s1" "u1")) "s1" "u1" = [e].
Proof.
  apply (joinQueue_idempotent (ex_rt "j") (ex_rt "k") ex_db8 "s1" "u1"
           (mkSession "s1" 1 true) (mkUser "u1" 1000));
    try reflexivity.
  vm_compute. lia.
Defined.



(** * Further properties of the scheduler *)

(** ** How many matches a call creates, and on which courts *)

Lemma spec_walk_count (rt : Runtime) (sid : string) (used : list Z) :
  forall (available k : nat) (line : list User) (c : Z) (db : Db),
    length (snd (spec_walk rt sid used available k line c db))
    = Nat.min available (length line / 4).
Proof.
  induction available as [|a IH]; intros k line c db; [reflexivity|].
  destruct line as [|g0 [|g1 [|g2 [|g3 next]]]]; try (simpl; lia).
  cbn [spec_walk].
  assert (length (g0 :: g1 :: g2 :: g3 :: next) / 4 = S (length next / 4)) as Hdiv.
  { change (length (g0 :: g1 :: g2 :: g3 :: next)) with (4 + length next).
    replace (4 + length next) with (1 * 4 + length next) by lia.
    rewrite Nat.div_add_l by lia. reflexivity. }
  rewrite Hdiv.
  assert (forall fourth next',
             length next' = length next ->
             length (snd (let '(db1, ms) :=
                            spec_walk rt sid used a (S k) next'
                              (skipUsed used (c + 1))
                              (deleteMany sid
                                 (playersOf (mkMatch (freshId rt k) sid c SCHEDULED
                                               None None (userId g0) (userId g1)
                                               (userId g2) (userId fourth) None))
                                 (createMatch (mkMatch (freshId rt k) sid c SCHEDULED
                                                 None None (userId g0) (userId g1)
                                                 (userId g2) (userId fourth) None) db))
                          in (db1, mkMatch (freshId rt k) sid c SCHEDULED
                                     None None (userId g0) (userId g1)
                                     (userId g2) (userId fourth) None :: ms)))
             = Nat.min (S a) (S (length next / 4))) as Hstep.
  { intros fourth next' Hlen.
    match goal with
    | |- context [spec_walk rt sid used a (S k) next' ?c' ?d] =>
        specialize (IH (S k) next' c' d)
    end.
    destruct (spec_walk rt sid used a (S k) next' _ _) as [db1 ms1].
    simpl in *. rewrite IH, Hlen. reflexivity. }
  destruct next as [|g4 later]; [apply Hstep; reflexivity|].
  destruct (Qltb (Math_random rt k) 0.2); apply Hstep; reflexivity.
Qed.

(** A court that is the lowest free one lies at most one above the number
    of occupied courts. *)
Lemma lowestFree_bound (occ : list Z) (c : Z) :
  lowestFree occ c -> (c <= Z.of_nat (length occ) + 1)%Z.
Proof.
  intros (H1 & _ & Hlow).
  set (below := map Z.of_nat (seq 1 (Z.to_nat (c - 1)))).
  assert (NoDup below) as Hnd.
  { apply Finite.Injective_map_NoDup; [|apply seq_NoDup].
    intros x y Hxy. apply Nat2Z.inj. exact Hxy. }
  assert (incl below occ) as Hincl.
  { intros x Hx. apply in_map_iff in Hx. destruct Hx as (n & <- & Hn).
    apply in_seq in Hn. apply Hlow. lia. }
  pose proof (NoDup_incl_length Hnd Hincl) as Hlen.
  unfold below in Hlen. rewrite length_map, length_seq in Hlen. lia.
Qed.

(** X1.  Every match [generateUpcomingMatches] creates is on a court of the
    session: its number is at least 1 and at most the session's [courts],
    whatever the courts of the matches already in the table. *)
Theorem generate_courts_within_capacity (rt : Runtime) (db : Db) (sid : string)
    (s : Session) (created : list Match) :
  findSession db sid = Some s ->
  snd (generateUpcomingMatches rt db sid) = Returned created ->
  Forall (fun m => (1 <= court m <= courts s)%Z) created.
Proof.
  intros Hs Hret. apply Forall_forall. intros m Hin.
  apply in_split in Hin. destruct Hin as (pre & post & ->).
  pose proof (generate_lowest_court rt db sid pre post m Hret) as Hlow.
  pose proof (lowestFree_bound _ _ Hlow) as Hb.
  destruct Hlow as (H1 & _). split; [exact H1|].
  rewrite length_app, !length_map in Hb.
  rewrite generate_refines_spec in Hret. unfold spec_generate in Hret.
  rewrite Hs in Hret.
  destruct (Z.to_nat _) as [|a] eqn:Ea;
    [simpl in Hret; injection Hret as Hret; destruct pre; discriminate Hret|].
  destruct (includeUsers db (findQueue db sid)) as [queued|]; [|discriminate Hret].
  pose proof (spec_walk_count rt sid (map court (liveMatches db sid)) (S a) 0
                (sortBy rating_leb queued)
                (skipUsed (map court (liveMatches db sid)) 1) db) as Hcount.
  destruct (spec_walk _ _ _ _ _ _ _ _) as [db' ms]. cbn [snd] in Hret, Hcount.
  injection Hret as ->. rewrite length_app in Hcount. cbn [length] in Hcount.
  pose proof (Nat.le_min_l (S a) (length (sortBy rating_leb queued) / 4)). lia.
Qed.

Lemma generate_courts_within_capacity_witness :
  Forall (fun m => (1 <= court m <= 1)%Z)
         [mkMatch "g0" "s1" 1 SCHEDULED None None "u1" "u2" "u3" "u4" None].
Proof.
  apply (generate_courts_within_capacity (ex_rt "g") ex_db8_queued "s1"
           (mkSession "s1" 1 true)); vm_compute; reflexivity.
Defined.

(** X2.  With the user rows of the queue in place, [generateUpcomingMatches]
    creates as many matches as the free courts and the waiting players
    allow: the smaller of [courts - inUse] (nothing when that is negative)
    and a quarter, rounded down, of the number of waiting players; and the
    session then has that many more live matches. *)
Theorem generate_count (rt : Runtime) (db : Db) (sid : string) (s : Session)
    (queued : list User) :
  findSession db sid = Some s ->
  includeUsers db (findQueue db sid) = Some queued ->
  exists created,
    snd (generateUpcomingMatches rt db sid) = Returned created
    /\ length created
       = Nat.min (Z.to_nat (courts s - Z.of_nat (length (liveMatches db sid))))
                 (waitingCount db sid / 4)
    /\ length (liveMatches (fst (generateUpcomingMatches rt db sid)) sid)
       = length (liveMatches db sid) + length created.
Proof.
  intros Hs Hq. rewrite generate_refines_spec. unfold spec_generate. rewrite Hs.
  replace (Z.to_nat (Z.max 0 (courts s - Z.of_nat (length (liveMatches db sid)))))
    with (Z.to_nat (courts s - Z.of_nat (length (liveMatches db sid)))) by lia.
  destruct (Z.to_nat _) as [|a] eqn:Ea.
  { exists []. cbn [fst snd length]. repeat split. lia. }
  rewrite Hq.
  pose proof (spec_walk_count rt sid (map court (liveMatches db sid)) (S a) 0
                (sortBy rating_leb queued)
                (skipUsed (map court (liveMatches db sid)) 1) db) as Hcount.
  destruct (spec_walk _ _ _ _ _ _ _ _) as [db' ms] eqn:Hwalk.
  apply spec_walk_store in Hwalk. destruct Hwalk as (_ & _ & _ & Hm & _ & Hall).
  cbn [fst snd] in *. exists ms. split; [reflexivity|]. split.
  - rewrite Hcount, sortBy_length, (includeUsers_length _ _ _ Hq), findQueue_length.
    reflexivity.
  - unfold liveMatches at 1. rewrite Hm, (liveMatches_app db ms sid sid Hall).
    rewrite String.eqb_refl, length_app. reflexivity.
Qed.

Lemma generate_count_witness :
  exists created,
    snd (generateUpcomingMatches (ex_rt "g") ex_db8_queued "s1") = Returned created
    /\ length created = 1
    /\ length (liveMatches (fst (generateUpcomingMatches (ex_rt "g") ex_db8_queued "s1"))
                           "s1") = 1.
Proof.
  destruct (generate_count (ex_rt "g") ex_db8_queued "s1" (mkSession "s1" 1 true)
              (users ex_db8))
    as (created & Hret & Hlen & Hlive);
    [vm_compute; reflexivity | vm_compute; reflexivity |].
  exists created. split; [exact Hret|]. split.
  - rewrite Hlen. vm_compute. reflexivity.
  - rewrite Hlive, Hlen. vm_compute. reflexivity.
Defined.

(** ** No player twice *)

Lemma includeUsers_ids (db : Db) (q : list WaitingQueueEntry) (us : list User) :
  includeUsers db q = Some us -> map userId us = map q_userId q.
Proof.
  revert us. induction q as [|e t IH]; intros us; simpl.
  - intros H. injection H as <-. reflexivity.
  - destruct (findUser db (q_userId e)) as [u|] eqn:Hu; [|discriminate].
    destruct (includeUsers db t) as [us'|]; [|discriminate].
    intros H. injection H as <-. simpl.
    rewrite (IH us' eq_refl), (findUser_key _ _ _ Hu). reflexivity.
Qed.

(** The players a walk puts into matches are taken out of the line, each
    once. *)
Lemma spec_walk_players (rt : Runtime) (sid : string) (used : list Z) :
  forall (available k : nat) (line : list User) (c : Z) (db : Db),
    exists rest,
      Permutation (map userId line)
                  (flat_map playersOf (snd (spec_walk rt sid used available k line c db))
                   ++ rest).
Proof.
  induction available as [|a IH]; intros k line c db.
  - exists (map userId line). reflexivity.
  - destruct line as [|g0 [|g1 [|g2 [|g3 next]]]];
      try (eexists; simpl; reflexivity).
    cbn [spec_walk].
    assert (forall fourth next',
               Permutation (userId g3 :: map userId next)
                           (userId fourth :: map userId next') ->
               exists rest,
                 Permutation
                   (map userId (g0 :: g1 :: g2 :: g3 :: next))
                   (flat_map playersOf
                      (snd (let '(db1, ms) :=
                              spec_walk rt sid used a (S k) next'
                                (skipUsed used (c + 1))
                                (deleteMany sid
                                   (playersOf (mkMatch (freshId rt k) sid c SCHEDULED
                                                 None None (userId g0) (userId g1)
                                                 (userId g2) (userId fourth) None))
                                   (createMatch (mkMatch (freshId rt k) sid c SCHEDULED
                                                   None None (userId g0) (userId g1)
                                                   (userId g2) (userId fourth) None) db))
                            in (db1, mkMatch (freshId rt k) sid c SCHEDULED
                                       None None (userId g0) (userId g1)
                                       (userId g2) (userId fourth) None :: ms)))
                    ++ rest)) as Hstep.
    { intros fourth next' Hperm.
      match goal with
      | |- context [spec_walk rt sid used a (S k) next' ?c' ?d] =>
          destruct (IH (S k) next' c' d) as [rest Hrest]
      end.
      destruct (spec_walk rt sid used a (S k) next' _ _) as [db1 ms1].
      exists rest. cbn [snd flat_map playersOf p1Id p2Id p3Id p4Id map] in *.
      cbn [app]. do 3 apply perm_skip.
      rewrite Hperm. apply perm_skip. exact Hrest. }
    destruct next as [|g4 later]; [apply Hstep; reflexivity|].
    destruct (Qltb (Math_random rt k) 0.2); apply Hstep;
      [apply perm_swap | reflexivity].
Qed.

(** X3.  When no player waits twice in the queue of a session, no player
    is put twice into the matches one call of [generateUpcomingMatches]
    creates: the four players of each match are distinct and no two of the
    matches share a player. *)
Theorem generate_players_distinct (rt : Runtime) (db : Db) (sid : string)
    (created : list Match) :
  queueUnique db ->
  snd (generateUpcomingMatches rt db sid) = Returned created ->
  NoDup (flat_map playersOf created).
Proof.
  intros Huniq. rewrite generate_refines_spec. unfold spec_generate.
  destruct (findSession db sid) as [s|]; [|discriminate].
  destruct (Z.to_nat _) as [|a];
    [simpl; intros H; injection H as <-; constructor|].
  destruct (includeUsers db (findQueue db sid)) as [queued|] eqn:Hq; [|discriminate].
  destruct (spec_walk_players rt sid (map court (liveMatches db sid)) (S a) 0
              (sortBy rating_leb queued)
              (skipUsed (map court (liveMatches db sid)) 1) db) as [rest Hperm].
  destruct (spec_walk _ _ _ _ _ _ _ _) as [db' ms]. cbn [snd] in *.
  intros H. injection H as <-.
  apply (NoDup_app_remove_r _ rest).
  apply (Permutation_NoDup Hperm).
  apply (Permutation_NoDup (Permutation_map userId (sortBy_perm rating_leb queued))).
  rewrite (includeUsers_ids _ _ _ Hq). unfold findQueue.
  apply (Permutation_NoDup (Permutation_map q_userId (sortBy_perm entry_leb _))).
  apply (Huniq sid).
Qed.

Lemma ex_db8_queued_unique : queueUnique ex_db8_queued.
Proof.
  intros sid.
  assert (waitingQueue ex_db8_queued
          = map (fun up => mkEntry "s1" (fst up) (snd up) 1700000000000)
                [("u1", 1); ("u2", 2); ("u3", 3); ("u4", 4);
                 ("u5", 5); ("u6", 6); ("u7", 7); ("u8", 8)]%Z) as ->
    by (vm_compute; reflexivity).
  unfold inSession. cbn -[String.eqb].
  destruct (String.eqb "s1" sid); cbn; repeat constructor; cbn;
    intuition discriminate.
Qed.

Lemma generate_players_distinct_witness :
  NoDup (flat_map playersOf
           [mkMatch "g0" "s1" 1 SCHEDULED None None "u1" "u2" "u3" "u4" None]).
Proof.
  apply (generate_players_distinct (ex_rt "g") ex_db8_queued "s1");
    [exact ex_db8_queued_unique | vm_compute; reflexivity].
Defined.

(** ** The queue keeps its unique index *)

(** Taking entries out of a queue does not make a player wait twice. *)
Lemma waiting_keys_filtered (keep : WaitingQueueEntry -> bool)
    (q : list WaitingQueueEntry) :
  NoDup (map q_userId q) -> NoDup (map q_userId (filter keep q)).
Proof.
  intros Hq. induction q as [|e q IH]; simpl in *; [exact Hq|].
  apply NoDup_cons_iff in Hq. destruct Hq as [Hfresh Hq].
  destruct (keep e); simpl; [|exact (IH Hq)].
  apply NoDup_cons; [|exact (IH Hq)].
  rewrite in_map_iff in *. intros (e' & Hkey & Hin).
  apply filter_In in Hin. apply Hfresh. exists e'. tauto.
Qed.

Lemma filter_comm {A : Type} (p q : A -> bool) (l : list A) :
  filter p (filter q l) = filter q (filter p l).
Proof.
  rewrite !filter_filter. apply filter_ext. intros x. apply andb_comm.
Qed.

Lemma queueUnique_ext (db db' : Db) :
  waitingQueue db' = waitingQueue db -> queueUnique db -> queueUnique db'.
Proof. intros Hq H sid. rewrite Hq. apply H. Qed.

Lemma queueUnique_filter (db db' : Db) (p : WaitingQueueEntry -> bool) :
  waitingQueue db' = filter p (waitingQueue db) -> queueUnique db -> queueUnique db'.
Proof.
  intros Hq H sid. rewrite Hq, filter_comm. apply waiting_keys_filtered. apply H.
Qed.

Lemma generate_keeps_queue_unique (rt : Runtime) (db : Db) (sid : string) :
  queueUnique db -> queueUnique (fst (generateUpcomingMatches rt db sid)).
Proof.
  intros H.
  destruct (generateUpcomingMatches rt db sid) as [db' out] eqn:Hgen.
  apply generate_store in Hgen. destruct out as [created|msg]; cbn [fst].
  - destruct Hgen as (_ & _ & _ & _ & Hq & _). exact (queueUnique_filter _ _ _ Hq H).
  - subst db'. exact H.
Qed.

Lemma findEntry_absent (db : Db) (sid uid : string) :
  findEntry db sid uid = None ->
  ~ In uid (map q_userId (filter (inSession sid) (waitingQueue db))).
Proof.
  unfold findEntry, inSession.
  induction (waitingQueue db) as [|e t IH]; simpl; [tauto|].
  destruct (String.eqb (q_sessionId e) sid); simpl.
  - destruct (String.eqb (q_userId e) uid) eqn:E; [discriminate|].
    apply String.eqb_neq in E. intros Hnone [Heq | Hin]; [congruence|].
    exact (IH Hnone Hin).
  - exact IH.
Qed.

Lemma joinQueue_keeps_queue_unique (rt : Runtime) (db : Db) (sid uid : string) :
  queueUnique db -> queueUnique (fst (joinQueue rt db sid uid)).
Proof.
  intros H. unfold joinQueue.
  destruct (findSession db sid) as [s|]; [|exact H].
  destruct (negb (isActive s)); [exact H|].
  destruct (findEntry db sid uid) as [e|] eqn:He; [exact H|].
  destruct (findUser db uid); [|exact H].
  cbn [fst]. intros sid'. cbn [waitingQueue set_waitingQueue].
  rewrite filter_app, map_app. unfold inSession at 2. cbn [filter q_sessionId].
  destruct (String.eqb sid sid') eqn:E; cbn [map app].
  - apply String.eqb_eq in E. subst sid'.
    apply NoDup_app; [apply H | repeat constructor; intros [] |].
    intros x Hx [<- | []]. exact (findEntry_absent db sid uid He Hx).
  - rewrite app_nil_r. apply H.
Qed.

Lemma finishMatch_keeps_queue_unique (rt : Runtime) (db : Db) (id : string)
    (body : JsValue) :
  queueUnique db -> queueUnique (fst (finishMatch rt db id body)).
Proof.
  intros H. unfold finishMatch.
  destruct (parseWinnerTeam body) as [w|]; [|exact H].
  destruct (findMatch db id) as [m|]; [|exact H].
  destruct (findUser db (p1Id m)) as [p1|]; [|exact H].
  destruct (findUser db (p2Id m)) as [p2|]; [|exact H].
  destruct (findUser db (p3Id m)) as [p3|]; [|exact H].
  destruct (findUser db (p4Id m)) as [p4|]; [|exact H].
  cbv zeta.
  generalize (asInt w). intros z.
  match goal with
  | |- context [generateUpcomingMatches rt ?d ?s] =>
      pose proof (generate_keeps_queue_unique rt d s
                    (queueUnique_ext db d eq_refl H)) as H4;
      destruct (generateUpcomingMatches rt d s) as [db4 [created|msg]]
  end; exact H4.
Qed.

(** X4.  No request makes a player wait twice in the queue of a session:
    the unique index of the queue table holds after [joinQueue],
    [generateMatches], [startMatch], [finishMatch] and [session/start] when
    it held before. *)
Theorem perform_keeps_queue_unique (rt : Runtime) (db : Db) (c : Call) :
  queueUnique db -> queueUnique (perform rt db c).
Proof.
  intros H. destruct c as [[sid uid | sid | id | id body] | cin din]; simpl.
  - apply joinQueue_keeps_queue_unique. exact H.
  - unfold generateMatches.
    pose proof (generate_keeps_queue_unique rt db sid H) as H'.
    destruct (generateUpcomingMatches rt db sid) as [db' [created|msg]]; exact H'.
  - unfold startMatch. destruct (findMatch db id); exact H.
  - apply finishMatch_keeps_queue_unique. exact H.
  - unfold startSession.
    destruct (parseNumber 1 20 5 cin); [|exact H].
    destruct (parseNumber 1 6 3 din); exact H.
Qed.

Lemma perform_keeps_queue_unique_witness :
  queueUnique (perform (ex_rt "g") ex_db8_queued (Engine (GenerateMatches "s1"))).
Proof.
  apply (perform_keeps_queue_unique (ex_rt "g") ex_db8_queued
           (Engine (GenerateMatches "s1"))).
  exact ex_db8_queued_unique.
Defined.

(** * What the requests never do *)

(** The branches of [finishMatch] up to the transaction. *)
Ltac finish_cases t :=
  unfold finishMatch;
  match goal with
  | |- context [parseWinnerTeam ?b] => destruct (parseWinnerTeam b) as [w|]; [|t]
  end;
  match goal with
  | |- context [findMatch ?d ?i] => destruct (findMatch d i) as [m|] eqn:Hm; [|t]
  end;
  match goal with
  | |- context [findUser ?d (p1Id ?m0)] =>
      destruct (findUser d (p1Id m0)) as [p1|] eqn:Hp1; [|t];
      destruct (findUser d (p2Id m0)) as [p2|] eqn:Hp2; [|t];
      destruct (findUser d (p3Id m0)) as [p3|] eqn:Hp3; [|t];
      destruct (findUser d (p4Id m0)) as [p4|] eqn:Hp4; [|t]
  end;
  cbv zeta.

Lemma generate_keeps_tables (rt : Runtime) (db : Db) (sid : string) :
  users (fst (generateUpcomingMatches rt db sid)) = users db
  /\ sessions (fst (generateUpcomingMatches rt db sid)) = sessions db
  /\ ratingHistory (fst (generateUpcomingMatches rt db sid)) = ratingHistory db
  /\ exists created,
       matches (fst (generateUpcomingMatches rt db sid)) = matches db ++ created.
Proof.
  destruct (generateUpcomingMatches rt db sid) as [db' out] eqn:Hgen.
  apply generate_store in Hgen. destruct out as [created|msg]; cbn [fst].
  - destruct Hgen as (Hu & Hs & Hh & Hm & _). repeat split; try assumption.
    exists created. exact Hm.
  - subst db'. repeat split. exists []. rewrite app_nil_r. reflexivity.
Qed.

(** X5.  The rating history is append-only: a request leaves the rows it
    finds, in their order, and adds rows only when it is a [finishMatch],
    which adds the four rows of the match's players, each with the key of
    the match. *)
Theorem history_append_only (rt : Runtime) (db : Db) (c : Call) :
  exists added,
    ratingHistory (perform rt db c) = ratingHistory db ++ added
    /\ (added = []
        \/ exists id body m,
             c = Engine (FinishMatch id body) /\ findMatch db id = Some m
             /\ map h_userId added = playersOf m
             /\ Forall (fun h => h_matchId h = id) added).
Proof.
  assert (forall d : Db, ratingHistory d = ratingHistory db ->
            exists added, ratingHistory d = ratingHistory db ++ added
              /\ (added = []
                  \/ exists id body m,
                       c = Engine (FinishMatch id body) /\ findMatch db id = Some m
                       /\ map h_userId added = playersOf m
                       /\ Forall (fun h => h_matchId h = id) added)) as Hsame.
  { intros d Hd. exists []. rewrite app_nil_r. split; [exact Hd | left; reflexivity]. }
  destruct c as [[sid uid | sid | id | id body] | cin din]; simpl.
  - apply Hsame. unfold joinQueue.
    destruct (findSession db sid) as [s|]; [|reflexivity].
    destruct (negb (isActive s)); [reflexivity|].
    destruct (findEntry db sid uid); [reflexivity|].
    destruct (findUser db uid); reflexivity.
  - apply Hsame. unfold generateMatches.
    pose proof (generate_keeps_tables rt db sid) as (_ & _ & Hh & _).
    destruct (generateUpcomingMatches rt db sid) as [db' [created|msg]]; exact Hh.
  - apply Hsame. unfold startMatch. destruct (findMatch db id); reflexivity.
  - finish_cases ltac:(apply Hsame; reflexivity).
    match goal with
    | |- context [set_ratingHistory (ratingHistory _ ++ ?rows) _] =>
        exists rows
    end.
    split.
    + generalize (asInt w). intros z.
      match goal with
      | |- context [generateUpcomingMatches rt ?d ?s] =>
          pose proof (generate_keeps_tables rt d s) as (_ & _ & Hh & _);
          destruct (generateUpcomingMatches rt d s) as [db4 [created|msg]]
      end; exact Hh.
    + right. exists id, body, m.
      repeat split; try reflexivity; [exact Hm | repeat constructor].
  - apply Hsame. unfold startSession.
    destruct (parseNumber 1 20 5 cin); [|reflexivity].
    destruct (parseNumber 1 6 3 din); reflexivity.
Qed.

Lemma findUser_ext (db db' : Db) (x : string) :
  users db' = users db -> findUser db' x = findUser db x.
Proof. intros H. unfold findUser. rewrite H. reflexivity. Qed.

Lemma findUser_updateUser_other (db : Db) (id x : string) (r : Q) :
  x <> id -> findUser (updateUser id r db) x = findUser db x.
Proof.
  intros Hne. rewrite findUser_updateUser.
  replace (String.eqb x id) with false by (symmetry; apply String.eqb_neq; exact Hne).
  reflexivity.
Qed.

(** X6.  A rating is rewritten by [finishMatch] only, and only for the four
    players of the match it is called on: every other request, and
    [finishMatch] for every user who is not one of the four, leaves the
    user's row as it was. *)
Theorem ratings_kept_outside_finished_match (rt : Runtime) (db : Db) (c : Call)
    (x : string) :
  (forall id body m,
      c = Engine (FinishMatch id body) -> findMatch db id = Some m ->
      ~ In x (playersOf m)) ->
  findUser (perform rt db c) x = findUser db x.
Proof.
  intros Hx.
  destruct c as [[sid uid | sid | id | id body] | cin din]; simpl.
  - apply findUser_ext. unfold joinQueue.
    destruct (findSession db sid) as [s|]; [|reflexivity].
    destruct (negb (isActive s)); [reflexivity|].
    destruct (findEntry db sid uid); [reflexivity|].
    destruct (findUser db uid); reflexivity.
  - apply findUser_ext. unfold generateMatches.
    pose proof (generate_keeps_tables rt db sid) as (Hu & _).
    destruct (generateUpcomingMatches rt db sid) as [db' [created|msg]]; exact Hu.
  - apply findUser_ext. unfold startMatch. destruct (findMatch db id); reflexivity.
  - specialize (Hx id body).
    finish_cases ltac:(reflexivity).
    specialize (Hx m eq_refl eq_refl). unfold playersOf in Hx. simpl in Hx.
    match goal with
    | |- context [set_ratingHistory _ ?d] =>
        assert (findUser d x = findUser db x) as Hrated
          by (rewrite !findUser_updateUser_other by (intuition congruence);
              reflexivity)
    end.
    generalize (asInt w). intros z.
    match goal with
    | |- context [generateUpcomingMatches rt ?d ?s] =>
        pose proof (generate_keeps_tables rt d s) as (Hu & _);
        destruct (generateUpcomingMatches rt d s) as [db4 [created|msg]]
    end; cbn [fst] in *;
      (rewrite (findUser_ext _ _ x Hu); exact Hrated).
  - apply findUser_ext. unfold startSession.
    destruct (parseNumber 1 20 5 cin); [|reflexivity].
    destruct (parseNumber 1 6 3 din); reflexivity.
Qed.

Lemma ratings_kept_outside_finished_match_witness :
  findUser (perform (ex_rt "h") ex_db8_scheduled
                    (Engine (FinishMatch "g0" (JsNumber 1)))) "u5"
  = findUser ex_db8_scheduled "u5".
Proof.
  apply (ratings_kept_outside_finished_match (ex_rt "h") ex_db8_scheduled
           (Engine (FinishMatch "g0" (JsNumber 1))) "u5").
  intros id body m Hc Hm. injection Hc as <- <-.
  vm_compute in Hm. injection Hm as <-. simpl. intuition discriminate.
Defined.

Lemma findMatch_ext (db db' : Db) (id : string) :
  matches db' = matches db -> findMatch db' id = findMatch db id.
Proof. intros H. unfold findMatch. rewrite H. reflexivity. Qed.

Lemma findMatch_updateMatch (db : Db) (id0 id : string) (f : Match -> Match) :
  (forall m, matchId (f m) = matchId m) ->
  findMatch (updateMatch id0 f db) id
  = if String.eqb id id0 then option_map f (findMatch db id0) else findMatch db id.
Proof.
  intros Hkey. unfold findMatch, updateMatch. simpl.
  destruct (String.eqb id id0) eqn:E.
  - apply String.eqb_eq in E. subst id.
    apply find_updateFirst_same. intros m. rewrite Hkey. reflexivity.
  - apply String.eqb_neq in E. apply find_updateFirst_other.
    intros m Hm. apply String.eqb_eq in Hm. rewrite Hkey.
    split; apply String.eqb_neq; congruence.
Qed.

Lemma findMatch_appended (db db' : Db) (created : list Match) (id : string) (m : Match) :
  matches db' = matches db ++ created ->
  findMatch db id = Some m -> findMatch db' id = Some m.
Proof.
  intros Hm Hf. unfold findMatch in *. rewrite Hm, find_app, Hf. reflexivity.
Qed.

Lemma sameFixture_refl (m : Match) : sameFixture m m.
Proof. repeat split. Qed.

(** A match that is in the table stays in it through an update of the row
    of any key, when the update keeps key, session, court and players. *)
Lemma updateMatch_keeps_fixture (db : Db) (id0 id : string) (f : Match -> Match)
    (m : Match) :
  (forall x, sameFixture x (f x)) ->
  findMatch db id = Some m ->
  exists m', findMatch (updateMatch id0 f db) id = Some m' /\ sameFixture m m'.
Proof.
  intros Hf Hm. rewrite findMatch_updateMatch by (intros x; apply (Hf x)).
  destruct (String.eqb id id0) eqn:E.
  - apply String.eqb_eq in E. subst id0. rewrite Hm. simpl.
    exists (f m). split; [reflexivity | apply Hf].
  - exists m. split; [exact Hm | apply sameFixture_refl].
Qed.

(** X7.  No request deletes a match or moves it: a match that is in the
    table is in it afterwards under the same key, with the session, the
    court and the four players it had.  (Status, winner and the two time
    stamps are what [startMatch] and [finishMatch] rewrite.) *)
Theorem matches_persist (rt : Runtime) (db : Db) (c : Call) (id : string)
    (row : Match) :
  findMatch db id = Some row ->
  exists row', findMatch (perform rt db c) id = Some row' /\ sameFixture row row'.
Proof.
  intros Hrow.
  assert (forall d : Db, matches d = matches db ->
            exists row', findMatch d id = Some row' /\ sameFixture row row') as Hsame.
  { intros d Hd. exists row. rewrite (findMatch_ext _ _ id Hd).
    split; [exact Hrow | apply sameFixture_refl]. }
  assert (forall (d : Db) (sid : string) m0,
            findMatch d id = Some m0 ->
            findMatch (fst (generateUpcomingMatches rt d sid)) id = Some m0) as Hgen.
  { intros d sid m0 Hd.
    destruct (generate_keeps_tables rt d sid) as (_ & _ & _ & created & Hc).
    exact (findMatch_appended _ _ _ _ _ Hc Hd). }
  destruct c as [[sid uid | sid | id0 | id0 body] | cin din]; simpl.
  - apply Hsame. unfold joinQueue.
    destruct (findSession db sid) as [s|]; [|reflexivity].
    destruct (negb (isActive s)); [reflexivity|].
    destruct (findEntry db sid uid); [reflexivity|].
    destruct (findUser db uid); reflexivity.
  - exists row. split; [|apply sameFixture_refl]. unfold generateMatches.
    pose proof (Hgen db sid row Hrow) as H'.
    destruct (generateUpcomingMatches rt db sid) as [db' [created|msg]]; exact H'.
  - unfold startMatch. destruct (findMatch db id0) as [m0|]; [|apply Hsame; reflexivity].
    cbn [fst]. apply updateMatch_keeps_fixture; [|exact Hrow].
    intros x. repeat split.
  - finish_cases ltac:(apply Hsame; reflexivity).
    generalize (asInt w). intros z.
    match goal with
    | |- context [generateUpcomingMatches rt (updateMatch ?i ?f ?d) ?s] =>
        destruct (updateMatch_keeps_fixture d i id f row) as (row' & Hm3 & Hfix);
          [intros x; repeat split
          | rewrite (findMatch_ext db d id eq_refl); exact Hrow |];
        pose proof (Hgen (updateMatch i f d) s row' Hm3) as H4;
        destruct (generateUpcomingMatches rt (updateMatch i f d) s)
          as [db4 [created|msg]]
    end; exists row'; split; assumption.
  - apply Hsame. unfold startSession.
    destruct (parseNumber 1 20 5 cin); [|reflexivity].
    destruct (parseNumber 1 6 3 din); reflexivity.
Qed.

Lemma matches_persist_witness :
  exists m',
    findMatch (perform (ex_rt "h") ex_db8_scheduled
                       (Engine (FinishMatch "g0" (JsNumber 1)))) "g0" = Some m'
    /\ sameFixture (mkMatch "g0" "s1" 1 SCHEDULED None None "u1" "u2" "u3" "u4" None) m'.
Proof.
  apply (matches_persist (ex_rt "h") ex_db8_scheduled
           (Engine (FinishMatch "g0" (JsNumber 1))) "g0").
  vm_compute. reflexivity.
Defined.

(** * The queue as it is listed *)

Lemma withUsers_rows (db : Db) (q : list WaitingQueueEntry)
    (rows : list (WaitingQueueEntry * User)) :
  withUsers db q = Some rows ->
  map fst rows = q
  /\ Forall (fun r => findUser db (q_userId (fst r)) = Some (snd r)) rows.
Proof.
  revert rows. induction q as [|e t IH]; intros rows; simpl.
  - intros H. injection H as <-. split; [reflexivity | constructor].
  - destruct (findUser db (q_userId e)) as [u|] eqn:Hu; [|discriminate].
    destruct (withUsers db t) as [rows'|]; [|discriminate].
    intros H. injection H as <-. destruct (IH rows' eq_refl) as [Hfst Hall].
    simpl. rewrite Hfst. split; [reflexivity|]. constructor; [exact Hu | exact Hall].
Qed.

Lemma withUsers_snoc (db : Db) (q : list WaitingQueueEntry) (e : WaitingQueueEntry)
    (u : User) (rows : list (WaitingQueueEntry * User)) :
  withUsers db q = Some rows -> findUser db (q_userId e) = Some u ->
  withUsers db (q ++ [e]) = Some (rows ++ [(e, u)]).
Proof.
  intros Hq Hu. revert rows Hq. induction q as [|x t IH]; intros rows; simpl.
  - intros H. injection H as <-. rewrite Hu. reflexivity.
  - destruct (findUser db (q_userId x)); [|discriminate].
    destruct (withUsers db t) as [rows'|]; [|discriminate].
    intros H. injection H as <-. rewrite (IH rows' eq_refl). reflexivity.
Qed.

Lemma withUsers_ext (db db' : Db) (q : list WaitingQueueEntry) :
  users db' = users db -> withUsers db' q = withUsers db q.
Proof.
  intros H. induction q as [|e t IH]; simpl; [reflexivity|].
  rewrite IH, (findUser_ext db db' _ H). reflexivity.
Qed.

Lemma StronglySorted_impl {A : Type} (R R' : A -> A -> Prop) (l : list A) :
  (forall a b, R a b -> R' a b) -> StronglySorted R l -> StronglySorted R' l.
Proof.
  intros Himp Hs. induction Hs as [|x t Hs IH Hx]; constructor; [exact IH|].
  eapply Forall_impl; [|exact Hx]. intros y. apply Himp.
Qed.

(** X8.  [listQueue] answers with the entries of the session, each once and
    with the row of its own user, in ascending order of position. *)
Theorem listQueue_ordered (db : Db) (sid : string)
    (rows : list (WaitingQueueEntry * User)) :
  listQueue db sid = Json rows ->
  Permutation (filter (inSession sid) (waitingQueue db)) (map fst rows)
  /\ StronglySorted (fun a b => (position a <= position b)%Z) (map fst rows)
  /\ Forall (fun r => findUser db (q_userId (fst r)) = Some (snd r)) rows.
Proof.
  unfold listQueue.
  destruct (withUsers db _) as [rows'|] eqn:Hw; [|discriminate].
  intros H. injection H as <-.
  destruct (withUsers_rows _ _ _ Hw) as [Hfst Hall]. rewrite Hfst.
  split; [apply sortBy_perm|]. split; [|exact Hall].
  assert (StronglySorted (fun a b => position_leb a b = true)
            (sortBy position_leb
               (filter (fun e => String.eqb (q_sessionId e) sid) (waitingQueue db))))
    as Hs.
  { apply sortBy_sorted; unfold position_leb.
    - intros x y Hxy. apply Z.leb_gt in Hxy. apply Z.leb_le. lia.
    - intros x y z Hxy Hyz. apply Z.leb_le in Hxy, Hyz. apply Z.leb_le. lia. }
  apply (StronglySorted_impl _ _ _ (fun a b => proj1 (Z.leb_le _ _)) Hs).
Qed.

Lemma listQueue_ordered_witness :
  match listQueue ex_db8_queued "s1" with
  | Json rows =>
      StronglySorted (fun a b => (position a <= position b)%Z) (map fst rows)
  | _ => False
  end.
Proof.
  destruct (listQueue ex_db8_queued "s1") as [rows| |] eqn:H;
    [|vm_compute in H; discriminate H | vm_compute in H; discriminate H].
  exact (proj1 (proj2 (listQueue_ordered ex_db8_queued "s1" rows H))).
Defined.

(** The position [joinQueue] computes is above every position in the queue
    of the session, and is 1 when that queue is empty. *)
Lemma maxPosition_bound (db : Db) (sid : string) :
  match maxPosition db sid with
  | None => filter (inSession sid) (waitingQueue db) = []
  | Some p =>
      Forall (fun e => (position e <= p)%Z) (filter (inSession sid) (waitingQueue db))
  end.
Proof.
  unfold maxPosition, inSession.
  assert (forall l acc,
             match
               fold_left
                 (fun acc e =>
                    if String.eqb (q_sessionId e) sid then
                      match acc with
                      | None => Some (position e)
                      | Some p => Some (Z.max p (position e))
                      end
                    else acc) l acc
             with
             | None =>
                 acc = None
                 /\ filter (fun e => String.eqb (q_sessionId e) sid) l = []
             | Some p =>
                 Forall (fun e => (position e <= p)%Z)
                        (filter (fun e => String.eqb (q_sessionId e) sid) l)
                 /\ forall p0, acc = Some p0 -> (p0 <= p)%Z
             end) as Hfold.
  { induction l as [|x t IH]; intros acc; simpl.
    - destruct acc as [p|]; [|tauto].
      split; [constructor|]. intros p0 H. injection H as <-. lia.
    - destruct (String.eqb (q_sessionId x) sid).
      + match goal with
        | |- context [fold_left _ t ?a] => specialize (IH a)
        end.
        destruct (fold_left _ t _) as [p|].
        * destruct IH as [Hall Hacc]. split.
          -- constructor; [|exact Hall].
             destruct acc as [p0|]; [|apply Hacc; reflexivity].
             specialize (Hacc _ eq_refl). lia.
          -- intros p0 ->. specialize (Hacc _ eq_refl). lia.
        * destruct IH as [Habs _]. destruct acc; discriminate Habs.
      + apply IH. }
  specialize (Hfold (waitingQueue db) None).
  destruct (fold_left _ _ _) as [p|]; tauto.
Qed.

Lemma maxPosition_empty (db : Db) (sid : string) :
  filter (fun e => String.eqb (q_sessionId e) sid) (waitingQueue db) = [] ->
  maxPosition db sid = None.
Proof.
  unfold maxPosition.
  induction (waitingQueue db) as [|x t IH]; simpl; [reflexivity|].
  destruct (String.eqb (q_sessionId x) sid); [discriminate | exact IH].
Qed.

Section SortSnoc.
Context {A : Type} (leb : A -> A -> bool).

Lemma insertBy_snoc (x e : A) (l : list A) :
  leb x e = true -> insertBy leb x (l ++ [e]) = insertBy leb x l ++ [e].
Proof.
  intros Hxe. induction l as [|y t IH]; simpl.
  - rewrite Hxe. reflexivity.
  - destruct (leb x y); [reflexivity|]. rewrite IH. reflexivity.
Qed.

Lemma sortBy_snoc (e : A) (l : list A) :
  Forall (fun x => leb x e = true) l -> sortBy leb (l ++ [e]) = sortBy leb l ++ [e].
Proof.
  induction 1 as [|x t Hx _ IH]; simpl; [reflexivity|].
  rewrite IH. apply insertBy_snoc. exact Hx.
Qed.
End SortSnoc.

(** X9.  A player who joins a queue in which the player was not waiting
    comes last in the listing of that queue: [listQueue] after the call is
    [listQueue] before it with the new entry added at the end, the
    position of the new entry is above all the others, and it is 1 when
    nobody was waiting. *)
Theorem joinQueue_enters_last (rt : Runtime) (db : Db) (sid uid : string)
    (s : Session) (u : User) (rows : list (WaitingQueueEntry * User)) :
  findSession db sid = Some s -> isActive s = true ->
  findUser db uid = Some u -> findEntry db sid uid = None ->
  listQueue db sid = Json rows ->
  exists e,
    snd (joinQueue rt db sid uid) = Json e
    /\ listQueue (fst (joinQueue rt db sid uid)) sid = Json (rows ++ [(e, u)])
    /\ Forall (fun r => (position (fst r) < position e)%Z) rows
    /\ (rows = [] -> position e = 1%Z).
Proof.
  intros Hs Hact Hu He Hlist. unfold joinQueue. rewrite Hs, Hact, He, Hu.
  cbn [negb fst snd].
  set (e := mkEntry sid uid _ (Date_now rt)). exists e.
  split; [reflexivity|].
  unfold listQueue in *.
  destruct (withUsers db _) as [rows'|] eqn:Hw; [|discriminate].
  injection Hlist as ->.
  destruct (withUsers_rows _ _ _ Hw) as [Hfst _].
  pose proof (maxPosition_bound db sid) as Hmax. unfold inSession in Hmax.
  assert (Forall (fun x => (position x < position e)%Z)
            (filter (fun x => String.eqb (q_sessionId x) sid) (waitingQueue db)))
    as Hbelow.
  { unfold e. cbn [position]. destruct (maxPosition db sid) as [p|].
    - eapply Forall_impl; [|exact Hmax]. intros x Hx. simpl in Hx. lia.
    - rewrite Hmax. constructor. }
  split; [|split].
  - cbn [waitingQueue set_waitingQueue]. rewrite filter_app. cbn [filter].
    replace (String.eqb (q_sessionId e) sid) with true
      by (symmetry; apply String.eqb_refl).
    rewrite sortBy_snoc.
    + rewrite (withUsers_ext db) by reflexivity.
      rewrite (withUsers_snoc db _ e u rows Hw Hu). reflexivity.
    + eapply Forall_impl; [|exact Hbelow]. intros x Hx. cbv beta in Hx.
      apply Z.leb_le. lia.
  - apply Forall_forall. intros r Hr.
    assert (In (fst r) (filter (fun x => String.eqb (q_sessionId x) sid)
                               (waitingQueue db))) as Hin.
    { apply (Permutation_in _ (Permutation_sym (sortBy_perm position_leb _))).
      rewrite <- Hfst. apply in_map. exact Hr. }
    rewrite Forall_forall in Hbelow. exact (Hbelow _ Hin).
  - intros ->. simpl in Hfst.
    assert (filter (fun x => String.eqb (q_sessionId x) sid) (waitingQueue db) = [])
      as Hempty.
    { apply Permutation_nil. rewrite Hfst. apply Permutation_sym, sortBy_perm. }
    unfold e. cbn [position]. rewrite (maxPosition_empty db sid Hempty). reflexivity.
Qed.

Lemma joinQueue_enters_last_witness :
  exists e rows,
    listQueue (fst (joinQueue (ex_rt "j") ex_db8_scheduled "s1" "u1")) "s1"
    = Json (rows ++ [(e, mkUser "u1" 1000)]).
Proof.
  destruct (listQueue ex_db8_scheduled "s1") as [rows| |] eqn:H;
    [|vm_compute in H; discriminate H | vm_compute in H; discriminate H].
  destruct (joinQueue_enters_last (ex_rt "j") ex_db8_scheduled "s1" "u1"
              (mkSession "s1" 1 true) (mkUser "u1" 1000) rows)
    as (e & _ & Hl & _);
    [vm_compute; reflexivity | reflexivity | vm_compute; reflexivity
    | vm_compute; reflexivity | exact H |].
  exists e, rows. exact Hl.
Defined.

(** * The leaderboard *)

Lemma StronglySorted_app_inv {A : Type} (R : A -> A -> Prop) (l1 l2 : list A) :
  StronglySorted R (l1 ++ l2) ->
  StronglySorted R l1 /\ forall a b, In a l1 -> In b l2 -> R a b.
Proof.
  induction l1 as [|x t IH]; simpl; intros H.
  - split; [constructor | intros a b []].
  - inversion H as [|y ys Hs Hx]; subst. destruct (IH Hs) as [Ht Hcross].
    rewrite Forall_forall in Hx. split.
    + constructor; [exact Ht|]. apply Forall_forall. intros z Hz.
      apply Hx. apply in_or_app. left. exact Hz.
    + intros a b [<- | Ha] Hb; [|exact (Hcross a b Ha Hb)].
      apply Hx. apply in_or_app. right. exact Hb.
Qed.

(** X10.  The leaderboard holds at most 100 users, in descending order of
    rating, and they are the best rated: the users of the table are the
    listed ones and the others, nobody twice, and none of the others is
    rated above a listed one; with at most 100 users all are listed. *)
Theorem leaderboard_top (db : Db) :
  length (leaderboard db) <= 100
  /\ StronglySorted (fun a b => (rating b <= rating a)%Q) (leaderboard db)
  /\ exists rest,
       Permutation (users db) (leaderboard db ++ rest)
       /\ (forall a b, In a (leaderboard db) -> In b rest -> (rating b <= rating a)%Q)
       /\ (length (users db) <= 100 -> rest = []).
Proof.
  unfold leaderboard.
  assert (StronglySorted (fun a b => (rating b <= rating a)%Q)
            (sortBy rating_geb (users db))) as Hs.
  { apply (StronglySorted_impl (fun a b => rating_geb a b = true)).
    - intros a b H. apply Qle_bool_iff. exact H.
    - apply sortBy_sorted; unfold rating_geb.
      + intros x y Hxy. apply Qle_bool_iff.
        destruct (Qlt_le_dec (rating x) (rating y)) as [Hlt | Hle].
        * apply Qlt_le_weak. exact Hlt.
        * apply Qle_bool_iff in Hle. congruence.
      + intros x y z Hxy Hyz. apply Qle_bool_iff.
        apply Qle_bool_iff in Hxy, Hyz. exact (Qle_trans _ _ _ Hyz Hxy). }
  rewrite <- (firstn_skipn 100 (sortBy rating_geb (users db))) in Hs.
  destruct (StronglySorted_app_inv _ _ _ Hs) as [Hboard Hcross].
  split; [apply firstn_le_length|]. split; [exact Hboard|].
  exists (skipn 100 (sortBy rating_geb (users db))).
  split; [|split].
  - rewrite firstn_skipn. apply sortBy_perm.
  - exact Hcross.
  - intros Hlen. apply skipn_all2. rewrite sortBy_length. exact Hlen.
Qed.

Lemma leaderboard_top_witness :
  map userId (leaderboard ex_db8) = ["u8"; "u7"; "u6"; "u5"; "u4"; "u3"; "u2"; "u1"]
  /\ length (leaderboard ex_db8) <= 100.
Proof.
  split; [vm_compute; reflexivity | exact (proj1 (leaderboard_top ex_db8))].
Defined.

(** * Starting a session *)

(** On a number that is not negative [asInt] is the whole part. *)
Lemma asInt_whole_part (q : Q) :
  (0 <= q)%Q -> (inject_Z (asInt q) <= q)%Q /\ (q < inject_Z (asInt q + 1))%Q.
Proof.
  destruct q as [num den]. unfold asInt, Qle, Qlt, inject_Z. simpl.
  intros Hnum. rewrite Z.quot_div_nonneg by lia.
  pose proof (Z.div_mod num (Zpos den) ltac:(lia)) as Hdiv.
  pose proof (Z.mod_pos_bound num (Zpos den) ltac:(lia)) as Hmod.
  split; nia.
Qed.

Lemma asInt_range (lo hi : Z) (q : Q) :
  (0 <= lo)%Z -> (inject_Z lo <= q)%Q -> (q <= inject_Z hi)%Q ->
  (lo <= asInt q <= hi)%Z.
Proof.
  intros H0 Hlo Hhi.
  assert (0 <= q)%Q as Hq
    by (apply (Qle_trans _ (inject_Z lo)); [unfold Qle; simpl; lia | exact Hlo]).
  destruct (asInt_whole_part q Hq) as [Hbelow Habove].
  split.
  - apply Z.lt_succ_r. rewrite Zlt_Qlt.
    apply (Qle_lt_trans _ q); [exact Hlo | exact Habove].
  - rewrite Zle_Qle.
    apply (Qle_trans _ q); [exact Hbelow | exact Hhi].
Qed.

Lemma parseNumber_range (lo hi dflt : Q) (v : JsValue) (q : Q) :
  (lo <= dflt)%Q -> (dflt <= hi)%Q ->
  parseNumber lo hi dflt v = Some q -> (lo <= q)%Q /\ (q <= hi)%Q.
Proof.
  intros Hlo Hhi. destruct v as [| | b | s | q']; simpl; try discriminate.
  - intros H. injection H as <-. tauto.
  - destruct (Qle_bool lo q') eqn:H1; destruct (Qle_bool q' hi) eqn:H2;
      simpl; try discriminate.
    intros H. injection H as <-. split; apply Qle_bool_iff; assumption.
Qed.

(** The store [session/start] leaves when it answers with a session. *)
Lemma startSession_store (rt : Runtime) (db : Db) (cin din : JsValue) :
  match startSession rt db cin din with
  | (db', Json s) =>
      isActive s = true /\ sessions db' = sessions db ++ [s]
      /\ users db' = users db /\ matches db' = matches db
      /\ waitingQueue db' = waitingQueue db /\ ratingHistory db' = ratingHistory db
  | _ => True
  end.
Proof.
  unfold startSession.
  destruct (parseNumber 1 20 5 cin) as [c|]; [|exact I].
  destruct (parseNumber 1 6 3 din) as [d|]; [|exact I].
  repeat split.
Qed.

(** X11.  [session/start] either answers with a new session and appends
    it to the table, or answers 400 and leaves the store as it was.  The
    new session is active and has between 1 and 20 courts: 5 when the body
    names none, and the whole part of the number the body names (2 for
    2.5) otherwise.  No session that was in the table is rewritten, so none
    is deactivated, and no other table changes. *)
Theorem startSession_effect (rt : Runtime) (db : Db) (cin din : JsValue) :
  match startSession rt db cin din with
  | (db', Json s) =>
      isActive s = true /\ (1 <= courts s <= 20)%Z
      /\ (cin = JsUndefined -> courts s = 5%Z)
      /\ (forall q, cin = JsNumber q ->
            (inject_Z (courts s) <= q)%Q /\ (q < inject_Z (courts s + 1))%Q)
      /\ sessions db' = sessions db ++ [s]
      /\ (forall id s0, findSession db id = Some s0 -> findSession db' id = Some s0)
      /\ users db' = users db /\ matches db' = matches db
      /\ waitingQueue db' = waitingQueue db /\ ratingHistory db' = ratingHistory db
  | (db', Status code _) => code = 400%Z /\ db' = db
  | (_, Rejected _) => False
  end.
Proof.
  unfold startSession.
  destruct (parseNumber 1 20 5 cin) as [c|] eqn:Hc; [|split; reflexivity].
  destruct (parseNumber 1 6 3 din) as [d|]; [|split; reflexivity].
  apply parseNumber_range in Hc as Hrange;
    [|unfold Qle; simpl; lia | unfold Qle; simpl; lia].
  destruct Hrange as [H1 H20].
  cbn [isActive courts sessions users matches waitingQueue ratingHistory
       set_sessions].
  split; [reflexivity|].
  split; [apply asInt_range; [lia | exact H1 | exact H20]|].
  split; [|split; [|split; [reflexivity|split]]].
  - intros ->. simpl in Hc. injection Hc as <-. reflexivity.
  - intros q ->. simpl in Hc.
    destruct (Qle_bool 1 q && Qle_bool q 20); [|discriminate Hc].
    injection Hc as <-. apply asInt_whole_part.
    apply (Qle_trans _ 1); [discriminate | exact H1].
  - intros id s0 Hs0. unfold findSession in *. simpl.
    rewrite find_app, Hs0. reflexivity.
  - repeat split.
Qed.

Lemma startSession_effect_witness :
  match startSession (ex_rt "t") ex_db8 (JsNumber 2.5) JsUndefined with
  | (db', Json s) =>
      courts s = 2%Z /\ isActive s = true /\ sessions db' = sessions ex_db8 ++ [s]
  | _ => False
  end.
Proof.
  pose proof (startSession_effect (ex_rt "t") ex_db8 (JsNumber 2.5) JsUndefined) as H.
  destruct (startSession (ex_rt "t") ex_db8 (JsNumber 2.5) JsUndefined)
    as [db' [s| |]] eqn:E;
    [|vm_compute in E; discriminate E | vm_compute in E; discriminate E].
  destruct H as (Hact & _ & _ & Hwhole & Hrows & _).
  destruct (Hwhole 2.5%Q eq_refl) as [Hbelow Habove].
  unfold Qle, Qlt in Hbelow, Habove. simpl in Hbelow, Habove.
  split; [lia | split; [exact Hact | exact Hrows]].
Defined.

(** X12.  A session started under a key that is not in the table can be
    joined at once: an existing user gets the first place of its queue as
    long as no entry names the key.  For the sessions that were in the
    table nothing changes: [joinQueue] answers as it would have without
    the new session and leaves the same queue, so several sessions are
    active side by side. *)
Theorem startSession_then_joinQueue (rt rt' : Runtime) (db db' : Db)
    (cin din : JsValue) (s : Session) (uid : string) (u : User) :
  startSession rt db cin din = (db', Json s) ->
  findSession db (sessionId s) = None ->
  waitingCount db (sessionId s) = 0 ->
  findUser db uid = Some u ->
  (snd (joinQueue rt' db' (sessionId s) uid)
   = Json (mkEntry (sessionId s) uid 1 (Date_now rt'))
   /\ listQueue (fst (joinQueue rt' db' (sessionId s) uid)) (sessionId s)
      = Json [(mkEntry (sessionId s) uid 1 (Date_now rt'), u)])
  /\ (forall sid0 uid0,
        findSession db sid0 <> None ->
        snd (joinQueue rt' db' sid0 uid0) = snd (joinQueue rt' db sid0 uid0)
        /\ waitingQueue (fst (joinQueue rt' db' sid0 uid0))
           = waitingQueue (fst (joinQueue rt' db sid0 uid0))).
Proof.
  intros Hstart Hnew Hcount Hu.
  pose proof (startSession_store rt db cin din) as Hst. rewrite Hstart in Hst.
  destruct Hst as (Hact & Hss & Hus & Hms & Hq & Hh).
  assert (filter (fun e => String.eqb (q_sessionId e) (sessionId s)) (waitingQueue db)
          = []) as Hempty
    by (apply length_zero_iff_nil; exact Hcount).
  assert (findSession db' (sessionId s) = Some s) as Hs'.
  { unfold findSession in *. rewrite Hss, find_app, Hnew. simpl.
    rewrite String.eqb_refl. reflexivity. }
  assert (findEntry db' (sessionId s) uid = None) as He'.
  { unfold findEntry. rewrite Hq, find_filter.
    rewrite <- (filter_filter (fun e => String.eqb (q_sessionId e) (sessionId s))).
    rewrite Hempty. reflexivity. }
  assert (maxPosition db' (sessionId s) = None) as Hmax.
  { apply maxPosition_empty. rewrite Hq. exact Hempty. }
  split.
  - unfold joinQueue. rewrite Hs', Hact, He', Hmax, (findUser_ext db db' uid Hus), Hu.
    cbn [negb fst snd]. split; [reflexivity|].
    unfold listQueue. cbn [waitingQueue set_waitingQueue].
    rewrite Hq, filter_app, Hempty. simpl. rewrite String.eqb_refl. simpl.
    unfold findUser. simpl. rewrite Hus. unfold findUser in Hu. rewrite Hu. reflexivity.
  - intros sid0 uid0 Hs0. unfold joinQueue.
    destruct (findSession db sid0) as [s0|] eqn:Es0; [|congruence].
    assert (findSession db' sid0 = Some s0) as ->
      by (unfold findSession in *; rewrite Hss, find_app, Es0; reflexivity).
    destruct (negb (isActive s0)); [split; [reflexivity | exact Hq]|].
    assert (findEntry db' sid0 uid0 = findEntry db sid0 uid0) as ->
      by (unfold findEntry; rewrite Hq; reflexivity).
    assert (maxPosition db' sid0 = maxPosition db sid0) as ->
      by (unfold maxPosition; rewrite Hq; reflexivity).
    rewrite (findUser_ext db db' uid0 Hus).
    destruct (findEntry db sid0 uid0); [split; [reflexivity | exact Hq]|].
    destruct (findUser db uid0); [|split; [reflexivity | exact Hq]].
    cbn [fst snd waitingQueue set_waitingQueue]. rewrite Hq. split; reflexivity.
Qed.

Lemma startSession_then_joinQueue_witness :
  snd (joinQueue (ex_rt "j")
         (fst (startSession (ex_rt "t") ex_db8 (JsNumber 3) JsUndefined)) "t0" "u1")
  = Json (mkEntry "t0" "u1" 1 (Date_now (ex_rt "j"))).
Proof.
  refine (proj1 (proj1 (startSession_then_joinQueue (ex_rt "t") (ex_rt "j") ex_db8
                          (fst (startSession (ex_rt "t") ex_db8 (JsNumber 3) JsUndefined))
                          (JsNumber 3) JsUndefined (mkSession "t0" 3 true)
                          "u1" (mkUser "u1" 1000) _ _ _ _)));
    vm_compute; reflexivity.
Defined.

(** * The token of a request *)

Lemma splitSpace_piece (s r : string) :
  noSpace s = true -> splitSpace (s ++ String space r) = s :: splitSpace r.
Proof.
  induction s as [|c s IH]; simpl; intros Hs.
  - reflexivity.
  - apply andb_prop in Hs. destruct Hs as [Hc Hs].
    apply negb_true_iff in Hc. rewrite Hc, (IH Hs). reflexivity.
Qed.

Lemma splitSpace_whole (s : string) : noSpace s = true -> splitSpace s = [s].
Proof.
  induction s as [|c s IH]; simpl; intros Hs; [reflexivity|].
  apply andb_prop in Hs. destruct Hs as [Hc Hs].
  apply negb_true_iff in Hc. rewrite Hc, (IH Hs). reflexivity.
Qed.

(** X13.  [authMiddleware] hands to [jwt.verify] the second piece of the
    header, cut at spaces, and lets the request through exactly when that
    piece verifies; the first piece is not looked at (it need not be
    "Bearer") and what follows a second space is dropped.  A header without
    a space, and a request without the header, are answered with 401. *)
Theorem authMiddleware_token (verify : string -> option string) :
  (forall scheme token tail,
      noSpace scheme = true -> noSpace token = true ->
      tail = EmptyString \/ (exists more, tail = String space more) ->
      authMiddleware verify (Some (scheme ++ String space (token ++ tail))%string)
      = match verify token with
        | Some sub => Next sub
        | None => Deny 401 "Invalid token"
        end)
  /\ (forall h, noSpace h = true ->
                exists msg, authMiddleware verify (Some h) = Deny 401 msg)
  /\ authMiddleware verify None = Deny 401 "Missing token".
Proof.
  split; [|split; [|reflexivity]].
  - intros scheme token tail Hs Ht Htail.
    assert (nth_error (splitSpace (scheme ++ String space (token ++ tail))%string) 1
            = Some token) as Hnth.
    { rewrite (splitSpace_piece _ _ Hs). simpl.
      destruct Htail as [-> | [more ->]].
      - replace (token ++ "")%string with token
          by (clear; induction token as [|c t IH]; simpl; [|rewrite <- IH]; reflexivity).
        rewrite (splitSpace_whole _ Ht). reflexivity.
      - rewrite (splitSpace_piece _ _ Ht). reflexivity. }
    unfold authMiddleware.
    destruct (scheme ++ String space (token ++ tail))%string eqn:E.
    + destruct scheme; discriminate E.
    + rewrite Hnth. reflexivity.
  - intros h Hh. unfold authMiddleware. destruct h as [|c h'].
    + eexists; reflexivity.
    + rewrite (splitSpace_whole _ Hh). simpl. eexists; reflexivity.
Qed.

Lemma authMiddleware_token_witness :
  authMiddleware (fun t => if String.eqb t "good" then Some "u1" else None)
                 (Some "Token good extra")
  = Next "u1".
Proof.
  exact (proj1 (authMiddleware_token
                  (fun t => if String.eqb t "good" then Some "u1" else None))
           "Token" "good" " extra" eq_refl eq_refl
           (or_intror (ex_intro _ "extra" eq_refl))).
Defined.

(** * Requests that do not look at each other's tables *)

(** X15.  [joinQueue] does not read the [Match] table: whatever matches
    the table holds, the call answers the same and leaves the same queue.
    A player of a SCHEDULED or ONGOING match is queued like anybody
    else. *)
Theorem joinQueue_ignores_matches (rt : Runtime) (db : Db) (sid uid : string)
    (ms : list Match) :
  joinQueue rt (set_matches ms db) sid uid
  = (set_matches ms (fst (joinQueue rt db sid uid)), snd (joinQueue rt db sid uid)).
Proof.
  unfold joinQueue.
  change (findSession (set_matches ms db) sid) with (findSession db sid).
  destruct (findSession db sid) as [s|]; [|reflexivity].
  destruct (negb (isActive s)); [reflexivity|].
  change (findEntry (set_matches ms db) sid uid) with (findEntry db sid uid).
  destruct (findEntry db sid uid); [reflexivity|].
  change (findUser (set_matches ms db) uid) with (findUser db uid).
  destruct (findUser db uid); reflexivity.
Qed.

(** X16.  [generateUpcomingMatches] for one session leaves the other
    sessions alone: their queues keep every entry, also the entries of
    players it has just put into a match, and their live matches are the
    same. *)
Theorem generate_other_sessions (rt : Runtime) (db : Db) (sid sid' : string) :
  sid' <> sid ->
  filter (inSession sid') (waitingQueue (fst (generateUpcomingMatches rt db sid)))
  = filter (inSession sid') (waitingQueue db)
  /\ liveMatches (fst (generateUpcomingMatches rt db sid)) sid' = liveMatches db sid'.
Proof.
  intros Hne.
  destruct (generateUpcomingMatches rt db sid) as [db' out] eqn:Hgen.
  apply generate_store in Hgen. destruct out as [created|msg]; cbn [fst].
  - destruct Hgen as (_ & _ & _ & Hm & Hq & Hall). split.
    + rewrite Hq, filter_filter. apply filter_ext. intros e.
      unfold keptEntry, inSession.
      destruct (String.eqb (q_sessionId e) sid') eqn:E; [|apply andb_false_r].
      apply String.eqb_eq in E.
      replace (String.eqb (q_sessionId e) sid) with false
        by (symmetry; apply String.eqb_neq; congruence).
      reflexivity.
    + unfold liveMatches at 1. rewrite Hm, (liveMatches_app db created sid sid' Hall).
      replace (String.eqb sid sid') with false
        by (symmetry; apply String.eqb_neq; congruence).
      apply app_nil_r.
  - subst db'. split; reflexivity.
Qed.

Lemma generate_other_sessions_witness :
  map q_userId
      (filter (inSession "t0")
         (waitingQueue (fst (generateUpcomingMatches (ex_rt "g") ex_db_two "s1"))))
  = ["u1"]
  /\ snd (generateUpcomingMatches (ex_rt "g") ex_db_two "s1")
     = Returned [mkMatch "g0" "s1" 1 SCHEDULED None None "u1" "u2" "u3" "u4" None].
Proof.
  split; [|vm_compute; reflexivity].
  rewrite (proj1 (generate_other_sessions (ex_rt "g") ex_db_two "s1" "t0"
                    ltac:(discriminate))).
  vm_compute. reflexivity.
Defined.

(** * Finishing a match frees its court *)

Lemma found_live (db : Db) (id : string) (m : Match) :
  findMatch db id = Some m -> isLive (status m) = true ->
  In m (liveMatches db (m_sessionId m)).
Proof.
  intros Hm Hlive. unfold findMatch in Hm. apply find_some in Hm.
  unfold liveMatches. apply filter_In. split; [tauto|].
  rewrite String.eqb_refl, Hlive. reflexivity.
Qed.




(** * A second call right after the first *)

Lemma Permutation_filter_length {A : Type} (f : A -> bool) (l l' : list A) :
  Permutation l l' -> length (filter f l) = length (filter f l').
Proof.
  induction 1 as [|x l l' _ IH | x y l | l l' l'' _ IH1 _ IH2]; simpl.
  - reflexivity.
  - destruct (f x); simpl; rewrite IH; reflexivity.
  - destruct (f x); destruct (f y); reflexivity.
  - rewrite IH1. exact IH2.
Qed.

Lemma filter_map_length {A B : Type} (g : A -> B) (f : B -> bool) (l : list A) :
  length (filter (fun x => f (g x)) l) = length (filter f (map g l)).
Proof.
  induction l as [|x t IH]; simpl; [reflexivity|].
  destruct (f (g x)); simpl; rewrite IH; reflexivity.
Qed.

Lemma players_length (ms : list Match) :
  length (flat_map playersOf ms) = 4 * length ms.
Proof.
  induction ms as [|m t IH]; simpl; [reflexivity|]. rewrite IH. lia.
Qed.

Lemma includeUsers_some (db : Db) (q : list WaitingQueueEntry) :
  includeUsers db q <> None
  <-> Forall (fun e => findUser db (q_userId e) <> None) q.
Proof.
  induction q as [|e t IH]; simpl.
  - split; [constructor | discriminate].
  - destruct (findUser db (q_userId e)) as [u|] eqn:Hu.
    + destruct (includeUsers db t) as [us|].
      * split; [|discriminate]. intros _. constructor; [congruence|].
        apply IH. discriminate.
      * split; [tauto|]. intros H. inversion H; subst. apply IH. assumption.
    + split; [tauto|]. intros H. inversion H; subst. congruence.
Qed.

(** The players of the matches a walk creates are waiting players: fewer
    wait afterwards, by four for every match at least. *)
Lemma walk_drains_queue (P : list string) (rest : list string)
    (S0 : list WaitingQueueEntry) (sid : string) :
  Forall (fun e => String.eqb (q_sessionId e) sid = true) S0 ->
  Permutation (map q_userId S0) (P ++ rest) ->
  length (filter (keptEntry sid P) S0) + length P <= length S0.
Proof.
  intros Hin Hperm.
  set (memP := fun x : string => existsb (String.eqb x) P).
  assert (filter (keptEntry sid P) S0
          = filter (fun e => negb (memP (q_userId e))) S0) as ->.
  { apply filter_ext_in. intros e He. rewrite Forall_forall in Hin.
    unfold keptEntry, memP. rewrite (Hin e He). reflexivity. }
  pose proof (filter_length (fun e => memP (q_userId e)) S0) as Hsplit.
  rewrite (filter_map_length q_userId memP) in Hsplit.
  rewrite (Permutation_filter_length memP _ _ Hperm), filter_app, length_app in Hsplit.
  assert (filter memP P = P) as HP.
  { apply forallb_filter_id. apply forallb_forall. intros x Hx.
    unfold memP. apply existsb_exists. exists x. split; [exact Hx|].
    apply String.eqb_refl. }
  rewrite HP in Hsplit. lia.
Qed.

(** X18.  [generateUpcomingMatches] leaves nothing to do for a second call:
    called again on the store it left (whatever the draws), with the
    session there and the user rows of the queue in place, it returns the
    empty list and changes nothing.  A call fills the free courts or uses
    up the groups of four. *)
Theorem generate_twice (rt rt' : Runtime) (db : Db) (sid : string) :
  findSession db sid <> None ->
  includeUsers db (findQueue db sid) <> None ->
  generateUpcomingMatches rt' (fst (generateUpcomingMatches rt db sid)) sid
  = (fst (generateUpcomingMatches rt db sid), Returned []).
Proof.
  intros Hs Hq.
  destruct (findSession db sid) as [s|] eqn:Es; [clear Hs | congruence].
  destruct (includeUsers db (findQueue db sid)) as [queued|] eqn:Eq;
    [clear Hq | congruence].
  rewrite (generate_refines_spec rt db sid). unfold spec_generate. rewrite Es.
  destruct (Z.to_nat (Z.max 0 (courts s - Z.of_nat (length (liveMatches db sid)))))
    as [|a] eqn:Ea.
  { cbn [fst]. rewrite generate_refines_spec. unfold spec_generate.
    rewrite Es, Ea. reflexivity. }
  rewrite Eq.
  pose proof (spec_walk_count rt sid (map court (liveMatches db sid)) (S a) 0
                (sortBy rating_leb queued)
                (skipUsed (map court (liveMatches db sid)) 1) db) as Hcount.
  destruct (spec_walk_players rt sid (map court (liveMatches db sid)) (S a) 0
              (sortBy rating_leb queued)
              (skipUsed (map court (liveMatches db sid)) 1) db) as [rest Hperm].
  destruct (spec_walk _ _ _ _ _ _ _ _) as [db1 ms] eqn:Hwalk.
  apply spec_walk_store in Hwalk.
  destruct Hwalk as (Hu1 & Hs1 & _ & Hm1 & Hq1 & Hall).
  cbn [fst snd] in *.
  rewrite generate_refines_spec. unfold spec_generate.
  assert (findSession db1 sid = Some s) as ->
    by (unfold findSession in *; rewrite Hs1; exact Es).
  assert (length (liveMatches db1 sid) = length (liveMatches db sid) + length ms)
    as Hlive.
  { unfold liveMatches at 1. rewrite Hm1, (liveMatches_app db ms sid sid Hall).
    rewrite String.eqb_refl, length_app. reflexivity. }
  rewrite Hlive.
  destruct (Z.to_nat (Z.max 0 (courts s - Z.of_nat (length (liveMatches db sid)
                                                    + length ms))))
    as [|a1] eqn:Ea1; [reflexivity|].
  (* courts are left: the walk stopped for want of players *)
  assert (length ms = length (sortBy rating_leb queued) / 4) as Hms by lia.
  rewrite sortBy_length, (includeUsers_length _ _ _ Eq), findQueue_length in Hms.
  set (S0 := filter (fun e => String.eqb (q_sessionId e) sid) (waitingQueue db)).
  assert (waitingCount db1 sid + 4 * length ms <= waitingCount db sid) as Hdrain.
  { unfold waitingCount. rewrite Hq1, filter_comm. fold S0.
    rewrite <- players_length.
    apply (walk_drains_queue _ rest).
    - apply Forall_forall. intros e He. unfold S0 in He.
      apply filter_In in He. tauto.
    - rewrite <- Hperm.
      rewrite <- (Permutation_map userId (sortBy_perm rating_leb queued)).
      rewrite (includeUsers_ids _ _ _ Eq). unfold findQueue. fold S0.
      apply Permutation_map. apply sortBy_perm. }
  assert (waitingCount db1 sid < 4) as Hfew.
  { pose proof (Nat.div_mod_eq (waitingCount db sid) 4) as Hdm.
    pose proof (Nat.mod_upper_bound (waitingCount db sid) 4) as Hmod. lia. }
  destruct (includeUsers db1 (findQueue db1 sid)) as [queued1|] eqn:Eq1.
  - rewrite spec_walk_nothing; [reflexivity|]. right.
    rewrite sortBy_length, (includeUsers_length _ _ _ Eq1), findQueue_length.
    exact Hfew.
  - exfalso. apply (proj2 (includeUsers_some db1 (findQueue db1 sid))); [|exact Eq1].
    assert (includeUsers db (findQueue db sid) <> None) as Hres by congruence.
    apply includeUsers_some in Hres. rewrite Forall_forall in Hres.
    apply Forall_forall. intros e He.
    rewrite (findUser_ext db db1 _ Hu1). apply Hres.
    unfold findQueue in *.
    apply (Permutation_in _ (Permutation_sym (sortBy_perm entry_leb _))) in He.
    apply (Permutation_in _ (sortBy_perm entry_leb _)).
    rewrite Hq1 in He. apply filter_In in He. destruct He as [He Hin].
    apply filter_In in He. apply filter_In. tauto.
Qed.

Lemma generate_twice_witness :
  generateUpcomingMatches (ex_rt "k")
    (fst (generateUpcomingMatches (ex_rt "g") ex_db8_queued "s1")) "s1"
  = (fst (generateUpcomingMatches (ex_rt "g") ex_db8_queued "s1"), Returned []).
Proof.
  apply (generate_twice (ex_rt "g") (ex_rt "k") ex_db8_queued "s1");
    vm_compute; discriminate.
Defined.
